(** * Lead intake form: submission lifecycle, payload formatting, retry service

    A shallow embedding of [src/components/LeadForm.tsx] and of the
    configuration constants it is deployed with, together with models of the
    collaborators the component imports ([date-fns]'s [format], the phone
    formatter, the validation schema, the submission service).

    The React component is event driven: its behaviour is the set of state
    changes caused by user input, by the click on the submit control, by the
    settlement of the awaited service call and by the expiry of the
    [setTimeout] it arms.  It is modelled as a step function on an explicit
    state, one step per event. *)

From Stdlib Require Import ZArith Lia Ascii String DecimalString.
From stdpp Require Import base strings list gmap.

Local Open Scope string_scope.

(** ** Configuration constants *)

Module Config.

Definition USE_FORM_FALLBACK : bool := true.
Definition MAX_RETRIES : nat := 7.
Definition RETRY_DELAY : nat := 2000.

Record SheetNames := { CLIENTE : string; LEAD : string }.

Definition SHEET_NAMES : SheetNames :=
  {| CLIENTE := "recebendoDadosDasVendas"; LEAD := "recebendoDadosDeLeads" |}.

End Config.

(** ** JavaScript values the component handles *)

(** What a [catch] clause can receive: an [Error] object, with its message,
    or any other thrown value. *)
Inductive Thrown :=
| ErrorObject (message : string)
| OtherValue.

(** The outcome of evaluating an expression that may throw. *)
Inductive Completion (A : Type) :=
| Normal (a : A)
| Throw (e : Thrown).
Arguments Normal {A} a.
Arguments Throw {A} e.

(** A [Date] as the formatting code observes it: either the invalid date or
    the calendar fields of its local time, [getFullYear()], [getMonth()]
    (zero based) and [getDate()]. *)
Inductive JsDate :=
| InvalidDate
| LocalDate (fullYear : Z) (month : nat) (date : nat).

(** The ranges the accessors of a valid [Date] stay in. *)
Definition wfDate (d : JsDate) : Prop :=
  match d with
  | InvalidDate => False
  | LocalDate _ m dd => (m < 12 ∧ 1 ≤ dd ≤ 31)%nat
  end.

Definition isValid (d : JsDate) : bool :=
  match d with InvalidDate => false | LocalDate _ _ _ => true end.

(** ** [date-fns]: [format(date, "dd/MM/yy")] *)

Module DateFns.

(** [Number.prototype.toString] on a non-negative integer. *)
Definition toString (n : nat) : string := NilZero.string_of_uint (Nat.to_uint n).

Fixpoint repeat0 (k : nat) : string :=
  match k with
  | 0 => ""
  | S k' => String "0"%char (repeat0 k')
  end.

(** [s.padStart(targetLength, "0")] *)
Definition padStart0 (targetLength : nat) (s : string) : string :=
  repeat0 (targetLength - String.length s) +:+ s.

(** [addLeadingZeros(number, targetLength)]: the sign, then the padded
    absolute value. *)
Definition addLeadingZeros (number : Z) (targetLength : nat) : string :=
  (if (number <? 0)%Z then "-" else "") +:+ padStart0 targetLength (toString (Z.abs_nat number)).

(** Token [yy]: the two last digits of the year, where years before 1 are
    counted as [1 - year]. *)
Definition token_yy (signedYear : Z) : string :=
  let year := if (0 <? signedYear)%Z then signedYear else (1 - signedYear)%Z in
  addLeadingZeros (year mod 100) 2.

(** Token [MM]: the month number, counted from 1. *)
Definition token_MM (month : nat) : string := addLeadingZeros (Z.of_nat month + 1) 2.

(** Token [dd]: the day of the month. *)
Definition token_dd (date : nat) : string := addLeadingZeros (Z.of_nat date) 2.

(** [format(date, "dd/MM/yy")]; an invalid date raises a [RangeError]. *)
Definition format_ddMMyy (d : JsDate) : Completion string :=
  match d with
  | InvalidDate => Throw (ErrorObject "Invalid time value")
  | LocalDate y m dd => Normal (token_dd dd +:+ "/" +:+ token_MM m +:+ "/" +:+ token_yy y)
  end.

End DateFns.

(** ** Phone formatter *)

Module Formatters.

Definition isDigit (c : ascii) : bool :=
  let n := nat_of_ascii c in Nat.leb 48 n && Nat.leb n 57.

Fixpoint digitsOf (s : string) : list ascii :=
  match s with
  | "" => []
  | String c s' => if isDigit c then c :: digitsOf s' else digitsOf s'
  end.

(** The display format of a phone number; [0] stands for a digit. *)
Definition PHONE_MASK : string := "(00) 00000-0000".

(** Lays digits over a mask from the left: a [0] of the mask takes the next
    digit, any other character of the mask is copied.  The result ends with
    the last digit placed. *)
Fixpoint applyMask (mask : string) (digits : list ascii) : string :=
  match digits, mask with
  | [], _ => ""
  | _, "" => ""
  | d :: ds, String m mask' =>
      if Ascii.eqb m "0"%char then String d (applyMask mask' ds)
      else String m (applyMask mask' digits)
  end.

(** Modelled from the spec: [formatPhone] of [lib/formatters], which is not
    among the sources.  The spec fixes the display format
    [(00) 00000-0000] of a number given as raw digits; the model keeps the
    digits of the input and lays them over that format.  What it returns on
    fewer than eleven digits (the digits placed so far) is the model's
    choice, no claim depends on it. *)
Definition formatPhone (value : string) : string :=
  applyMask PHONE_MASK (digitsOf value).

(** A text has the shape of a mask: a digit where the mask has [0], the
    mask's own character elsewhere, and the same length. *)
Fixpoint matchesMask (mask s : string) : bool :=
  match mask, s with
  | "", "" => true
  | String m mask', String c s' =>
      (if Ascii.eqb m "0"%char then isDigit c else Ascii.eqb m c) && matchesMask mask' s'
  | _, _ => false
  end.

End Formatters.

(** ** Validation schema *)

Module LeadValidators.

(** [LeadFormValues]: the view model of the form. *)
Record LeadFormValues := {
  nome : string;
  telefone : string;
  instagram : string;
  interesse : string;
  statusLead : string;
  dataLembrete : option JsDate;
  motivoLembrete : string;
  observacoes : string
}.

Inductive Field :=
| F_nome | F_telefone | F_instagram | F_interesse
| F_statusLead | F_dataLembrete | F_motivoLembrete | F_observacoes.

Definition allFields : list Field :=
  [F_nome; F_telefone; F_instagram; F_interesse;
   F_statusLead; F_dataLembrete; F_motivoLembrete; F_observacoes].

(** The key of a field in the [errors] object. *)
Definition fieldName (f : Field) : string :=
  match f with
  | F_nome => "nome"
  | F_telefone => "telefone"
  | F_instagram => "instagram"
  | F_interesse => "interesse"
  | F_statusLead => "statusLead"
  | F_dataLembrete => "dataLembrete"
  | F_motivoLembrete => "motivoLembrete"
  | F_observacoes => "observacoes"
  end.

(** The fields the form marks [required]. *)
Definition required (f : Field) : bool :=
  match f with
  | F_instagram | F_observacoes => false
  | _ => true
  end.

(** The members of the status enumeration. *)
Definition STATUS_OPTIONS : list string :=
  ["Novo"; "Em negociação"; "Qualificado"; "Não qualificado"].

Inductive Problem := LeftEmpty | Malformed.

Definition emptyText (s : string) : option Problem :=
  if String.eqb s "" then Some LeftEmpty else None.

(** Modelled from the spec: the rules of [leadFormSchema] of
    [lib/leadValidators], which is not among the sources.  The spec has a
    record rejected "if required fields are empty or malformed (phone
    pattern, date validity, enum membership)"; the required fields are
    those the form marks so, the phone pattern is the display format. *)
Definition problem (v : LeadFormValues) (f : Field) : option Problem :=
  match f with
  | F_nome => emptyText (nome v)
  | F_telefone =>
      match emptyText (telefone v) with
      | Some p => Some p
      | None =>
          if Formatters.matchesMask Formatters.PHONE_MASK (telefone v) then None
          else Some Malformed
      end
  | F_instagram => None
  | F_interesse => emptyText (interesse v)
  | F_statusLead =>
      match emptyText (statusLead v) with
      | Some p => Some p
      | None => if bool_decide (statusLead v ∈ STATUS_OPTIONS) then None else Some Malformed
      end
  | F_dataLembrete =>
      match dataLembrete v with
      | None => Some LeftEmpty
      | Some d => if isValid d then None else Some Malformed
      end
  | F_motivoLembrete => emptyText (motivoLembrete v)
  | F_observacoes => None
  end.

(** The issues of a record, as the object the form reads its inline
    messages from: one entry per offending field, under the field's name. *)
Fixpoint collect (message : Field → Problem → string)
    (v : LeadFormValues) (fs : list Field) : gmap string string :=
  match fs with
  | [] => ∅
  | f :: fs' =>
      match problem v f with
      | Some p => <[fieldName f := message f p]> (collect message v fs')
      | None => collect message v fs'
      end
  end.

(** Modelled from the spec: [leadFormSchema] behind [zodResolver], not
    among the sources: "given a candidate record, returns either the
    validated record or a mapping from field name to a human-readable error
    message".  The texts of the messages are not in the spec and are a
    parameter. *)
Definition leadFormSchema (message : Field → Problem → string)
    (v : LeadFormValues) : LeadFormValues + gmap string string :=
  let issues := collect message v allFields in
  if bool_decide (issues = ∅) then inl v else inr issues.

End LeadValidators.

(** ** Submission service *)

Module GoogleSheetsService.

Record SubmitResult := { success : bool; message : string }.

(** What one delivery attempt ends in: a response of the endpoint, whose
    payload may signal a failure, or an exception of the transport. *)
Inductive AttemptOutcome :=
| Response (signalsFailure : bool) (text : string)
| Exception (error : string).

(** The error text of a failed attempt; [None] for a successful one. *)
Definition attemptError (o : AttemptOutcome) : option string :=
  match o with
  | Response true text => Some text
  | Response false _ => None
  | Exception error => Some error
  end.

Definition responseText (o : AttemptOutcome) : string :=
  match o with
  | Response _ text => text
  | Exception error => error
  end.

(** What the service does, in order. *)
Inductive Action :=
| Attempt (index : nat)
| Delay (ms : nat).

Section Retry.
Context {R : Type}.
(** The endpoint and the network: the outcome of the attempt of a given
    index at delivering a given record. *)
Variable transport : R → nat → AttemptOutcome.

(** The retry loop with [remaining] attempts left, the next one having
    index [i]. *)
Fixpoint retryLoop (remaining i : nat) (data : R) (lastError : string)
    : SubmitResult * list Action :=
  match remaining with
  | 0 => ({| success := false; message := lastError |}, [])
  | S r =>
      match attemptError (transport data i) with
      | None =>
          ({| success := true; message := responseText (transport data i) |},
           [Attempt i])
      | Some e =>
          let rest := retryLoop r (S i) data e in
          (rest.1,
           Attempt i :: match r with
                        | 0 => rest.2
                        | S _ => Delay Config.RETRY_DELAY :: rest.2
                        end)
      end
  end.

(** Modelled from the spec: [submitToGoogleSheets] of
    [services/GoogleSheetsService], which is not among the sources.  "On
    failure, retries up to a configured maximum attempt count with a
    fixed delay between attempts; after exhausting attempts, returns a
    failure result carrying the last error's message.  Treats any
    non-exception response from the endpoint as success unless the
    response payload explicitly signals failure."  Which of the two
    transports carries an attempt is not modelled.  The second component
    is the trace of attempts and delays. *)
Definition submitToGoogleSheets (data : R) : SubmitResult * list Action :=
  retryLoop Config.MAX_RETRIES 0 data "".

End Retry.

Definition attempts (acts : list Action) : list nat :=
  omap (λ a, match a with Attempt i => Some i | Delay _ => None end) acts.

Definition delays (acts : list Action) : list nat :=
  omap (λ a, match a with Delay ms => Some ms | Attempt _ => None end) acts.

(** Delays occur between two attempts only. *)
Fixpoint delaysBetweenAttempts (acts : list Action) : bool :=
  match acts with
  | [] => true
  | [Attempt _] => true
  | Attempt _ :: (Delay _ :: (Attempt _ :: _) as rest) => delaysBetweenAttempts rest
  | Attempt _ :: (Attempt _ :: _) => false
  | _ => false
  end.

End GoogleSheetsService.

(** ** The lead form component *)

Module LeadForm.
Import LeadValidators GoogleSheetsService.

(** [formattedData]: the record handed to the service, the validated data
    with the reminder date replaced by its text and the discriminator
    [formType] added. *)
Module FormattedData.
Record t := {
  nome : string;
  telefone : string;
  instagram : string;
  interesse : string;
  statusLead : string;
  dataLembrete : string;
  motivoLembrete : string;
  observacoes : string;
  formType : string
}.
End FormattedData.

Inductive Variant := DefaultVariant | Destructive.

Record Toast := { title : string; description : string; variant : Variant }.

(** The state of a mounted form: the two [useState] cells, the values and
    errors kept by [useForm], the notifications shown so far (latest
    first), the calls of the service that are awaited, the due times of the
    armed timers, the time in milliseconds, and every record handed to the
    service so far (latest first). *)
Record State := {
  isSubmitting : bool;
  submitted : bool;
  values : LeadFormValues;
  errors : gmap string string;
  toasts : list Toast;
  inFlight : list FormattedData.t;
  timers : list nat;
  clock : nat;
  handedOver : list FormattedData.t
}.

Definition defaultValues : LeadFormValues :=
  {| nome := ""; telefone := ""; instagram := ""; interesse := "";
     statusLead := "Novo"; dataLembrete := None;
     motivoLembrete := ""; observacoes := "" |}.

Definition initial : State :=
  {| isSubmitting := false; submitted := false;
     values := defaultValues; errors := ∅; toasts := [];
     inFlight := []; timers := []; clock := 0; handedOver := [] |}.

(** *** State updates *)

Definition setIsSubmitting (b : bool) (s : State) : State :=
  {| isSubmitting := b; submitted := submitted s; values := values s;
     errors := errors s; toasts := toasts s; inFlight := inFlight s;
     timers := timers s; clock := clock s; handedOver := handedOver s |}.

Definition setSubmitted (b : bool) (s : State) : State :=
  {| isSubmitting := isSubmitting s; submitted := b; values := values s;
     errors := errors s; toasts := toasts s; inFlight := inFlight s;
     timers := timers s; clock := clock s; handedOver := handedOver s |}.

Definition setValues (v : LeadFormValues) (s : State) : State :=
  {| isSubmitting := isSubmitting s; submitted := submitted s; values := v;
     errors := errors s; toasts := toasts s; inFlight := inFlight s;
     timers := timers s; clock := clock s; handedOver := handedOver s |}.

Definition setErrors (e : gmap string string) (s : State) : State :=
  {| isSubmitting := isSubmitting s; submitted := submitted s; values := values s;
     errors := e; toasts := toasts s; inFlight := inFlight s;
     timers := timers s; clock := clock s; handedOver := handedOver s |}.

Definition toast (t : Toast) (s : State) : State :=
  {| isSubmitting := isSubmitting s; submitted := submitted s; values := values s;
     errors := errors s; toasts := t :: toasts s; inFlight := inFlight s;
     timers := timers s; clock := clock s; handedOver := handedOver s |}.

Definition setInFlight (l : list FormattedData.t) (s : State) : State :=
  {| isSubmitting := isSubmitting s; submitted := submitted s; values := values s;
     errors := errors s; toasts := toasts s; inFlight := l;
     timers := timers s; clock := clock s; handedOver := handedOver s |}.

Definition setTimers (l : list nat) (s : State) : State :=
  {| isSubmitting := isSubmitting s; submitted := submitted s; values := values s;
     errors := errors s; toasts := toasts s; inFlight := inFlight s;
     timers := l; clock := clock s; handedOver := handedOver s |}.

Definition setClock (t : nat) (s : State) : State :=
  {| isSubmitting := isSubmitting s; submitted := submitted s; values := values s;
     errors := errors s; toasts := toasts s; inFlight := inFlight s;
     timers := timers s; clock := t; handedOver := handedOver s |}.

(** The call [submitToGoogleSheets(formattedData)]: the record is handed
    over and its result is awaited. *)
Definition callService (fd : FormattedData.t) (s : State) : State :=
  {| isSubmitting := isSubmitting s; submitted := submitted s; values := values s;
     errors := errors s; toasts := toasts s; inFlight := inFlight s ++ [fd];
     timers := timers s; clock := clock s; handedOver := fd :: handedOver s |}.

(** [setTimeout(callback, ms)]: the callback is due [ms] from now. *)
Definition setTimeout (ms : nat) (s : State) : State :=
  setTimers (timers s ++ [clock s + ms]) s.

(** *** Field changes *)

(** [setValue(field, value)] with a text, as the input, select, combobox
    and textarea handlers call it. *)
Definition setValue (f : Field) (text : string) (v : LeadFormValues) : LeadFormValues :=
  match f with
  | F_nome =>
      {| nome := text; telefone := telefone v; instagram := instagram v;
         interesse := interesse v; statusLead := statusLead v;
         dataLembrete := dataLembrete v; motivoLembrete := motivoLembrete v;
         observacoes := observacoes v |}
  | F_telefone =>
      {| nome := nome v; telefone := text; instagram := instagram v;
         interesse := interesse v; statusLead := statusLead v;
         dataLembrete := dataLembrete v; motivoLembrete := motivoLembrete v;
         observacoes := observacoes v |}
  | F_instagram =>
      {| nome := nome v; telefone := telefone v; instagram := text;
         interesse := interesse v; statusLead := statusLead v;
         dataLembrete := dataLembrete v; motivoLembrete := motivoLembrete v;
         observacoes := observacoes v |}
  | F_interesse =>
      {| nome := nome v; telefone := telefone v; instagram := instagram v;
         interesse := text; statusLead := statusLead v;
         dataLembrete := dataLembrete v; motivoLembrete := motivoLembrete v;
         observacoes := observacoes v |}
  | F_statusLead =>
      {| nome := nome v; telefone := telefone v; instagram := instagram v;
         interesse := interesse v; statusLead := text;
         dataLembrete := dataLembrete v; motivoLembrete := motivoLembrete v;
         observacoes := observacoes v |}
  | F_dataLembrete => v
  | F_motivoLembrete =>
      {| nome := nome v; telefone := telefone v; instagram := instagram v;
         interesse := interesse v; statusLead := statusLead v;
         dataLembrete := dataLembrete v; motivoLembrete := text;
         observacoes := observacoes v |}
  | F_observacoes =>
      {| nome := nome v; telefone := telefone v; instagram := instagram v;
         interesse := interesse v; statusLead := statusLead v;
         dataLembrete := dataLembrete v; motivoLembrete := motivoLembrete v;
         observacoes := text |}
  end.

(** [setValue("dataLembrete", date)], as [handleDateChange] calls it. *)
Definition setDate (d : option JsDate) (v : LeadFormValues) : LeadFormValues :=
  {| nome := nome v; telefone := telefone v; instagram := instagram v;
     interesse := interesse v; statusLead := statusLead v;
     dataLembrete := d; motivoLembrete := motivoLembrete v;
     observacoes := observacoes v |}.

(** Modelled from the spec: how [FormInput] (not among the sources) uses
    its [formatter] property: the text typed is normalized by the formatter
    before it is reported to [onChange].  Only the phone input is given a
    formatter. *)
Definition reported (f : Field) (typed : string) : string :=
  match f with
  | F_telefone => Formatters.formatPhone typed
  | _ => typed
  end.

(** *** [onSubmit] *)

(** The object literal [formattedData]; [format] may throw. *)
Definition formattedData (data : LeadFormValues) : Completion FormattedData.t :=
  let build (lembrete : string) :=
    {| FormattedData.nome := nome data;
       FormattedData.telefone := telefone data;
       FormattedData.instagram := instagram data;
       FormattedData.interesse := interesse data;
       FormattedData.statusLead := statusLead data;
       FormattedData.dataLembrete := lembrete;
       FormattedData.motivoLembrete := motivoLembrete data;
       FormattedData.observacoes := observacoes data;
       FormattedData.formType := "lead" |} in
  match dataLembrete data with
  | Some d =>
      match DateFns.format_ddMMyy d with
      | Normal text => Normal (build text)
      | Throw e => Throw e
      end
  | None => Normal (build "")
  end.

Definition successToast : Toast :=
  {| title := "Sucesso!";
     description := "Dados do lead enviados com sucesso para a planilha.";
     variant := DefaultVariant |}.

(** The notification of the [else] branch. *)
Definition failureToast (msg : string) : Toast :=
  {| title := "Erro"; description := msg; variant := Destructive |}.

(** The notification of the [catch] clause. *)
Definition catchToast (error : Thrown) : Toast :=
  {| title := "Erro";
     description :=
       match error with
       | ErrorObject msg => msg
       | OtherValue => "Ocorreu um erro ao enviar os dados. Tente novamente."
       end;
     variant := Destructive |}.

(** The delay of the automatic reset, in milliseconds. *)
Definition RESET_DELAY : nat := 3000.

(** The [finally] clause. *)
Definition finally (s : State) : State := setIsSubmitting false s.

(** [onSubmit(data)] up to the point where it awaits the service, or to its
    end when building the record throws. *)
Definition onSubmit_start (data : LeadFormValues) (s : State) : State :=
  let s1 := setIsSubmitting true s in
  match formattedData data with
  | Normal fd => callService fd s1
  | Throw e => finally (toast (catchToast e) s1)
  end.

(** [onSubmit] from the point where the awaited call settles, with the
    result it resolved to or the value it rejected with. *)
Definition onSubmit_resume (outcome : Completion SubmitResult) (s : State) : State :=
  finally
    match outcome with
    | Normal result =>
        if success result
        then setTimeout RESET_DELAY (setSubmitted true (toast successToast s))
        else toast (failureToast (message result)) s
    | Throw e => toast (catchToast e) s
    end.

(** [reset()] of [useForm]: the default values, no errors. *)
Definition reset (s : State) : State := setErrors ∅ (setValues defaultValues s).

(** The callback given to [setTimeout]. *)
Definition timerCallback (s : State) : State := setSubmitted false (reset s).

(** [handleSubmit(onSubmit)]: the resolver runs on the current values;
    [onSubmit] is called with the validated data only when there are no
    errors. *)
Definition handleSubmit (resolver : LeadFormValues → LeadFormValues + gmap string string)
    (s : State) : State :=
  match resolver (values s) with
  | inl data => onSubmit_start data (setErrors ∅ s)
  | inr issues => setErrors issues s
  end.

(** The [disabled] property of the submit button. *)
Definition submitDisabled (s : State) : bool := isSubmitting s || submitted s.

(** *** Events and steps *)

Inductive Event :=
| Input (f : Field) (typed : string)
| PickDate (d : option JsDate)
| ClickSubmit
| Settle (outcome : Completion SubmitResult)
| TimerFires
| Elapse (ms : nat).

(** One event of the page; [None] when the event cannot occur in the state:
    a click on the disabled button, the settlement of a call that was not
    made, a timer that is not armed or not due, a text typed into the date
    picker.  The submit button is the only submit control of the form, so a
    submission by the keyboard goes through it as well and is refused while
    it is disabled.  A handler and the rendering that follows it, the
    [disabled] property included, make one step: [step] is what the page
    does when the component is rendered after every handler, before the next
    event is dispatched.  [RenderedPage.pageStep] below is the page without
    that assumption, where the button refuses a click by what was rendered
    last. *)
Definition step (resolver : LeadFormValues → LeadFormValues + gmap string string)
    (s : State) (e : Event) : option State :=
  match e with
  | Input F_dataLembrete _ => None
  | Input f typed => Some (setValues (setValue f (reported f typed) (values s)) s)
  | PickDate d => Some (setValues (setDate d (values s)) s)
  | ClickSubmit =>
      if submitDisabled s then None else Some (handleSubmit resolver s)
  | Settle outcome =>
      match inFlight s with
      | [] => None
      | _ :: rest => Some (onSubmit_resume outcome (setInFlight rest s))
      end
  | TimerFires =>
      match timers s with
      | [] => None
      | due :: rest =>
          if Nat.leb due (clock s) then Some (timerCallback (setTimers rest s))
          else None
      end
  | Elapse ms => Some (setClock (clock s + ms) s)
  end.

Fixpoint run (resolver : LeadFormValues → LeadFormValues + gmap string string)
    (s : State) (es : list Event) : option State :=
  match es with
  | [] => Some s
  | e :: es' =>
      match step resolver s e with
      | Some s' => run resolver s' es'
      | None => None
      end
  end.

(** The states a mounted form can be in. *)
Inductive reachable (resolver : LeadFormValues → LeadFormValues + gmap string string)
    : State → Prop :=
| reachable_initial : reachable resolver initial
| reachable_step s e s' :
    reachable resolver s → step resolver s e = Some s' → reachable resolver s'.

(** The form can be edited and submitted, and nothing of a submission is
    left over. *)
Definition editable (s : State) : Prop :=
  isSubmitting s = false ∧ submitted s = false ∧ submitDisabled s = false
  ∧ inFlight s = [] ∧ timers s = [].

(** The state a form is mounted in, up to the notifications shown, the
    time and the record of past calls. *)
Definition fresh (s : State) : Prop :=
  editable s ∧ values s = defaultValues ∧ errors s = ∅.

(** *** What the page shows *)

(** The value of a field as [watch(field)] returns it. *)
Inductive FieldValue :=
| TextValue (text : string)
| DateValue (d : option JsDate).

Definition watch (f : Field) (v : LeadFormValues) : FieldValue :=
  match f with
  | F_nome => TextValue (nome v)
  | F_telefone => TextValue (telefone v)
  | F_instagram => TextValue (instagram v)
  | F_interesse => TextValue (interesse v)
  | F_statusLead => TextValue (statusLead v)
  | F_dataLembrete => DateValue (dataLembrete v)
  | F_motivoLembrete => TextValue (motivoLembrete v)
  | F_observacoes => TextValue (observacoes v)
  end.

(** The text on the submit button. *)
Definition buttonText (s : State) : string :=
  if isSubmitting s then "Enviando..."
  else if submitted s then "Enviado com Sucesso!"
  else "Enviar Dados do Lead".

End LeadForm.

(** ** The page between two renders *)

Module RenderedPage.
Import LeadValidators GoogleSheetsService LeadForm.

(** The form together with the [disabled] attribute of the submit button as
    the last render left it.  [onSubmit] does not test [isSubmitting]: what
    refuses a submit is this attribute, and it changes only when the
    component is rendered again. *)
Record Page := {
  form : State;
  domDisabled : bool
}.

Definition initialPage : Page := {| form := initial; domDisabled := false |}.

Definition withForm (s : State) (p : Page) : Page :=
  {| form := s; domDisabled := domDisabled p |}.

(** A render of the component: [disabled={isSubmitting || submitted}]. *)
Definition render (p : Page) : Page :=
  {| form := form p; domDisabled := submitDisabled (form p) |}.

Inductive PageEvent :=
| Dispatch (e : Event)
| SettleAt (i : nat) (outcome : Completion SubmitResult)
| Render.

(** One event of the page.  A submit is refused by the rendered attribute
    only, and runs [handleSubmit] whatever the flags are by then; the call
    that settles is any of the calls awaited; the other events are those of
    [step]. *)
Definition pageStep (resolver : LeadFormValues → LeadFormValues + gmap string string)
    (p : Page) (e : PageEvent) : option Page :=
  match e with
  | Render => Some (render p)
  | Dispatch ClickSubmit =>
      if domDisabled p then None
      else Some (withForm (handleSubmit resolver (form p)) p)
  | Dispatch e' =>
      match step resolver (form p) e' with
      | Some s' => Some (withForm s' p)
      | None => None
      end
  | SettleAt i outcome =>
      match inFlight (form p) !! i with
      | Some _ =>
          Some (withForm
                  (onSubmit_resume outcome
                     (setInFlight (delete i (inFlight (form p))) (form p))) p)
      | None => None
      end
  end.

Fixpoint pageRun (resolver : LeadFormValues → LeadFormValues + gmap string string)
    (p : Page) (es : list PageEvent) : option Page :=
  match es with
  | [] => Some p
  | e :: es' =>
      match pageStep resolver p e with
      | Some p' => pageRun resolver p' es'
      | None => None
      end
  end.

(** The pages a mounted form can show. *)
Inductive pageReachable (resolver : LeadFormValues → LeadFormValues + gmap string string)
    : Page → Prop :=
| pageReachable_initial : pageReachable resolver initialPage
| pageReachable_step p e p' :
    pageReachable resolver p → pageStep resolver p e = Some p' →
    pageReachable resolver p'.

(** Every submit dispatched is followed by a render before anything else
    happens. *)
Fixpoint rendersAfterSubmit (es : list PageEvent) : bool :=
  match es with
  | [] => true
  | Dispatch ClickSubmit :: rest =>
      match rest with
      | Render :: rest' => rendersAfterSubmit rest'
      | _ => false
      end
  | _ :: rest => rendersAfterSubmit rest
  end.

End RenderedPage.

(** ** Notions the properties are stated with *)

Module Spec.
Import LeadValidators GoogleSheetsService LeadForm.

Definition digit (k : nat) : ascii := ascii_of_nat (48 + k).

(** A number below 100 written with two digits. *)
Definition twoDigits (n : nat) : string :=
  String (digit (n / 10)) (String (digit (n mod 10)) "").

(** The two last digits of a year, as [yy] counts years. *)
Definition shortYear (y : Z) : nat :=
  Z.to_nat ((if (0 <? y)%Z then y else (1 - y)%Z) mod 100).

(** The text [dd/MM/yy] of a date: day of the month, month counted from 1,
    two last digits of the year. *)
Definition ddMMyy (year : Z) (month date : nat) : string :=
  twoDigits date +:+ "/" +:+ twoDigits (month + 1) +:+ "/" +:+ twoDigits (shortYear year).

Definition DATE_MASK : string := "00/00/00".

(** Eleven digits in the display format [(00) 00000-0000]. *)
Definition phoneDisplay (ds : list ascii) : string :=
  "(" +:+ string_of_list_ascii (take 2 ds) +:+ ") "
      +:+ string_of_list_ascii (take 5 (drop 2 ds)) +:+ "-"
      +:+ string_of_list_ascii (drop 7 ds).

(** A field holds nothing. *)
Definition leftEmpty (v : LeadFormValues) (f : Field) : bool :=
  match f with
  | F_nome => String.eqb (nome v) ""
  | F_telefone => String.eqb (telefone v) ""
  | F_instagram => String.eqb (instagram v) ""
  | F_interesse => String.eqb (interesse v) ""
  | F_statusLead => String.eqb (statusLead v) ""
  | F_dataLembrete => match dataLembrete v with None => true | Some _ => false end
  | F_motivoLembrete => String.eqb (motivoLembrete v) ""
  | F_observacoes => String.eqb (observacoes v) ""
  end.

(** A text is a phone number in the display format: eleven digits laid out
    as [(00) 00000-0000]. *)
Definition phoneText (s : string) : Prop :=
  ∃ ds, length ds = 11%nat
      ∧ Forall (λ c, Formatters.isDigit c = true) ds
      ∧ s = phoneDisplay ds.

(** A text is one of the four states of a lead. *)
Definition statusText (s : string) : Prop :=
  s = "Novo" ∨ s = "Em negociação" ∨ s = "Qualificado" ∨ s = "Não qualificado".

(** A field holds something that is not what the field is for: a phone
    number that is not in the display format, a status that is none of the
    four, a reminder date that is not a date. *)
Definition malformed (v : LeadFormValues) (f : Field) : Prop :=
  match f with
  | F_telefone => telefone v ≠ "" ∧ ¬ phoneText (telefone v)
  | F_statusLead => statusLead v ≠ "" ∧ ¬ statusText (statusLead v)
  | F_dataLembrete => dataLembrete v = Some InvalidDate
  | F_nome | F_instagram | F_interesse | F_motivoLembrete | F_observacoes => False
  end.

(** A field that keeps a record from being submitted: a required one left
    empty, or one whose content is malformed. *)
Definition offending (v : LeadFormValues) (f : Field) : Prop :=
  (required f = true ∧ leftEmpty v f = true) ∨ malformed v f.

(** The error text of a settlement that is not a success: the message of a
    failure result, the message of a thrown error, the fixed text for any
    other thrown value. *)
Definition failureText (outcome : Completion SubmitResult) : option string :=
  match outcome with
  | Normal result => if success result then None else Some (message result)
  | Throw e => Some (description (catchToast e))
  end.

(** An attempt that ends in an error. *)
Definition failed {R : Type} (transport : R → nat → AttemptOutcome) (data : R)
    (i : nat) : Prop :=
  attemptError (transport data i) ≠ None.

(** The states of the form's life cycle. *)
Inductive Phase := Editing | Submitting | Submitted.

Definition inPhase (ph : Phase) (s : State) : Prop :=
  match ph with
  | Editing =>
      isSubmitting s = false ∧ submitted s = false ∧ inFlight s = [] ∧ timers s = []
  | Submitting =>
      isSubmitting s = true ∧ submitted s = false
      ∧ (∃ fd, inFlight s = [fd]) ∧ timers s = []
  | Submitted =>
      isSubmitting s = false ∧ submitted s = true
      ∧ inFlight s = [] ∧ (∃ due, timers s = [due])
  end.

(** Sample data for the examples. *)
Definition sampleMessage (f : Field) (p : Problem) : string :=
  fieldName f +:+ match p with
                  | LeftEmpty => ": campo obrigatorio"
                  | Malformed => ": valor invalido"
                  end.

Definition sampleFill : list Event :=
  [Input F_nome "Ana Souza"; Input F_telefone "11987654321";
   Input F_interesse "Promoções"; PickDate (Some (LocalDate 2025 2 9));
   Input F_motivoLembrete "Retornar contato"].

Definition sampleTransport {R : Type} (alwaysFails : bool) (data : R) (i : nat)
    : AttemptOutcome :=
  if alwaysFails then Exception ("falha " +:+ DateFns.toString i)
  else if Nat.ltb i 2 then Exception "Failed to fetch"
       else Response false "ok".

Definition sampleResolver : LeadFormValues → LeadFormValues + gmap string string :=
  leadFormSchema sampleMessage.

(** The form after the sample input. *)
Definition sampleFilled : State :=
  Eval vm_compute in default initial (run sampleResolver initial sampleFill).

(** The same form after a click on the submit button. *)
Definition sampleSubmitting : State :=
  Eval vm_compute in default initial (run sampleResolver sampleFilled [ClickSubmit]).

(** The same form after the service reported a success. *)
Definition sampleSubmitted : State :=
  Eval vm_compute in
  default initial
    (run sampleResolver sampleSubmitting
       [Elapse 1500; Settle (Normal {| success := true; message := "ok" |})]).

(** What an event does to the phase of a form that is in phase [ph] and
    steps to [s']: a click on the submit button leaves the editing phase for
    the submitting one or stays, a settlement leaves the submitting phase
    for the editing or the submitted one, the timer leaves the submitted
    phase for the editing one, and nothing else changes the phase. *)
Definition phaseStep (ph : Phase) (e : Event) (s' : State) : Prop :=
  match e with
  | ClickSubmit => ph = Editing ∧ (inPhase Editing s' ∨ inPhase Submitting s')
  | Settle outcome =>
      ph = Submitting
      ∧ match failureText outcome with
        | Some _ => inPhase Editing s'
        | None => inPhase Submitted s'
        end
  | TimerFires => ph = Submitted ∧ inPhase Editing s'
  | Input _ _ | PickDate _ | Elapse _ => inPhase ph s'
  end.

(** The notification an event adds, if any. *)
Definition toastStep (e : Event) (before after : list Toast) : Prop :=
  match e with
  | Settle outcome =>
      after = match failureText outcome with
              | Some text => failureToast text
              | None => successToast
              end :: before
  | ClickSubmit => after = before ∨ ∃ err, after = catchToast err :: before
  | Input _ _ | PickDate _ | TimerFires | Elapse _ => after = before
  end.

(** The sample form after three digits are typed into the phone input. *)
Definition sampleShortPhone : State :=
  Eval vm_compute in
  default initial (run sampleResolver sampleFilled [Input F_telefone "123"]).

(** The page of the sample form, rendered. *)
Definition samplePage : RenderedPage.Page :=
  {| RenderedPage.form := sampleFilled; RenderedPage.domDisabled := false |}.

(** The sample page after two submits dispatched before any render. *)
Definition sampleTwoSubmits : RenderedPage.Page :=
  Eval vm_compute in
  default samplePage
    (RenderedPage.pageRun sampleResolver samplePage
       [RenderedPage.Dispatch ClickSubmit; RenderedPage.Dispatch ClickSubmit]).

(** The events of the sample input, one submit and the render after it. *)
Definition sampleSubmitRendered : list RenderedPage.PageEvent :=
  (map RenderedPage.Dispatch sampleFill
     ++ [RenderedPage.Dispatch ClickSubmit; RenderedPage.Render])%list.

(** The sample page after those events. *)
Definition sampleRenderedSubmitting : RenderedPage.Page :=
  Eval vm_compute in
  default samplePage
    (RenderedPage.pageRun sampleResolver RenderedPage.initialPage sampleSubmitRendered).

(** A page whose form is in one of its three phases and whose button, where
    it is rendered enabled, belongs to a form in the editing phase. *)
Definition pageInv (p : RenderedPage.Page) : Prop :=
  (∃ ph, inPhase ph (RenderedPage.form p))
  ∧ (RenderedPage.domDisabled p = false → inPhase Editing (RenderedPage.form p)).

(** A resolver without rules. *)
Definition acceptAll (v : LeadFormValues) : LeadFormValues + gmap string string := inl v.

(** The sample form after another name is typed. *)
Definition sampleRenamed : State :=
  Eval vm_compute in
  default initial (run sampleResolver sampleFilled [Input F_nome "Ana Lima"]).

(** A form whose date picker holds an invalid date. *)
Definition sampleInvalidDate : State :=
  Eval vm_compute in
  default initial (run acceptAll initial [Input F_nome "Ana"; PickDate (Some InvalidDate)]).

End Spec.

Import LeadValidators GoogleSheetsService LeadForm RenderedPage Spec.

(** * Properties *)

(** ** Date and phone formatting *)

Section Formatting.

Lemma isDigit_digit k : (k < 10)%nat → Formatters.isDigit (digit k) = true.
Proof.
  intros Hk. do 10 (destruct k as [|k]; [reflexivity|]). lia.
Qed.

Lemma addLeadingZeros_twoDigits n :
  (n < 100)%nat → DateFns.addLeadingZeros (Z.of_nat n) 2 = twoDigits n.
Proof.
  intros Hn.
  assert (Hall : forallb (λ k, String.eqb (DateFns.addLeadingZeros (Z.of_nat k) 2) (twoDigits k))
                   (seq 0 100) = true) by (vm_compute; reflexivity).
  rewrite forallb_forall in Hall.
  apply String.eqb_eq, Hall, in_seq. lia.
Qed.

Lemma shortYear_lt y : (shortYear y < 100)%nat.
Proof.
  unfold shortYear. destruct (0 <? y)%Z.
  - pose proof (Z.mod_pos_bound y 100). lia.
  - pose proof (Z.mod_pos_bound (1 - y) 100). lia.
Qed.

Lemma token_yy_twoDigits y : DateFns.token_yy y = twoDigits (shortYear y).
Proof.
  unfold DateFns.token_yy.
  rewrite <- (addLeadingZeros_twoDigits _ (shortYear_lt y)).
  f_equal. unfold shortYear. rewrite Z2Nat.id; [reflexivity|].
  destruct (0 <? y)%Z.
  - pose proof (Z.mod_pos_bound y 100). lia.
  - pose proof (Z.mod_pos_bound (1 - y) 100). lia.
Qed.

Lemma format_ddMMyy_spec y m dd :
  wfDate (LocalDate y m dd) →
  DateFns.format_ddMMyy (LocalDate y m dd) = Normal (ddMMyy y m dd).
Proof.
  intros [Hm [Hd1 Hd2]]. unfold DateFns.format_ddMMyy, ddMMyy. f_equal.
  unfold DateFns.token_dd, DateFns.token_MM.
  rewrite token_yy_twoDigits, addLeadingZeros_twoDigits by lia.
  replace (Z.of_nat m + 1)%Z with (Z.of_nat (m + 1)) by lia.
  rewrite addLeadingZeros_twoDigits by lia. reflexivity.
Qed.

Lemma append_cons c s t : String c s +:+ t = String c (s +:+ t).
Proof. reflexivity. Qed.

Lemma append_empty t : "" +:+ t = t.
Proof. reflexivity. Qed.

Lemma twoDigits_mask n rest tail :
  (n < 100)%nat →
  Formatters.matchesMask (String "0" (String "0" rest)) (twoDigits n +:+ tail)
  = Formatters.matchesMask rest tail.
Proof.
  intros Hn. unfold twoDigits. rewrite !append_cons, append_empty.
  cbn -[digit Nat.div Nat.modulo Formatters.isDigit].
  rewrite !isDigit_digit; [reflexivity| |].
  - apply Nat.mod_upper_bound. lia.
  - apply Nat.Div0.div_lt_upper_bound. lia.
Qed.

Lemma slash_mask rest tail :
  Formatters.matchesMask (String "/" rest) ("/" +:+ tail) = Formatters.matchesMask rest tail.
Proof. reflexivity. Qed.

Lemma ddMMyy_shape y m dd :
  wfDate (LocalDate y m dd) → Formatters.matchesMask DATE_MASK (ddMMyy y m dd) = true.
Proof.
  intros [Hm [Hd1 Hd2]]. unfold DATE_MASK, ddMMyy.
  rewrite twoDigits_mask, slash_mask, twoDigits_mask, slash_mask by lia.
  change (twoDigits (shortYear y)) with (twoDigits (shortYear y) +:+ "").
  rewrite twoDigits_mask by apply shortYear_lt. reflexivity.
Qed.

Lemma digitsOf_digits ds :
  Forall (λ c, Formatters.isDigit c = true) ds →
  Formatters.digitsOf (string_of_list_ascii ds) = ds.
Proof.
  induction 1 as [|c ds Hc _ IH]; [reflexivity|].
  cbn [string_of_list_ascii Formatters.digitsOf]. rewrite Hc, IH. reflexivity.
Qed.

Lemma formatPhone_display ds :
  length ds = 11%nat → Forall (λ c, Formatters.isDigit c = true) ds →
  Formatters.formatPhone (string_of_list_ascii ds) = phoneDisplay ds.
Proof.
  intros Hlen Hds. unfold Formatters.formatPhone. rewrite digitsOf_digits by assumption.
  do 11 (destruct ds as [|? ds]; [discriminate Hlen|]).
  destruct ds; [reflexivity|discriminate Hlen].
Qed.

Lemma phoneDisplay_shape ds :
  length ds = 11%nat → Forall (λ c, Formatters.isDigit c = true) ds →
  Formatters.matchesMask Formatters.PHONE_MASK (phoneDisplay ds) = true.
Proof.
  intros Hlen Hds.
  do 11 (destruct ds as [|? ds]; [discriminate Hlen|]).
  destruct ds; [|discriminate Hlen].
  repeat match goal with
         | H : Forall _ (_ :: _) |- _ => apply Forall_cons_1 in H; destruct H as [? H]
         end.
  unfold phoneDisplay, Formatters.PHONE_MASK.
  cbn [take drop string_of_list_ascii].
  repeat (rewrite ?append_cons, ?append_empty).
  cbn -[Formatters.isDigit].
  repeat match goal with
         | H : Formatters.isDigit _ = true |- _ => rewrite H; clear H
         end.
  reflexivity.
Qed.

End Formatting.

(** ** The retry loop of the submission service *)

Section RetryLoop.
Context {R : Type} (transport : R → nat → AttemptOutcome) (data : R).

Local Abbreviation failed := (Spec.failed transport data).

Lemma attempts_cons a l :
  attempts (a :: l)
  = match a with Attempt i => i :: attempts l | Delay _ => attempts l end.
Proof. destruct a; reflexivity. Qed.

Lemma delays_cons a l :
  delays (a :: l)
  = match a with Delay ms => ms :: delays l | Attempt _ => delays l end.
Proof. destruct a; reflexivity. Qed.

Lemma retryLoop_head remaining i lastError :
  remaining ≠ 0%nat →
  ∃ tl, (retryLoop transport remaining i data lastError).2 = Attempt i :: tl.
Proof.
  destruct remaining as [|r]; [congruence|]. intros _. cbn [retryLoop].
  destruct (attemptError (transport data i)); cbn [snd]; eauto.
Qed.

Lemma retryLoop_delays_between remaining i lastError :
  delaysBetweenAttempts (retryLoop transport remaining i data lastError).2 = true.
Proof.
  revert i lastError. induction remaining as [|r IH]; intros i lastError; [reflexivity|].
  cbn [retryLoop]. destruct (attemptError (transport data i)) as [e|]; [|reflexivity].
  cbn [snd]. destruct r as [|r']; [reflexivity|].
  destruct (retryLoop_head (S r') (S i) e) as [tl Htl]; [lia|].
  specialize (IH (S i) e). rewrite Htl in IH |- *. exact IH.
Qed.

Lemma retryLoop_trace remaining i lastError :
  ∃ k, (k ≤ remaining)%nat ∧ (remaining ≠ 0 → 1 ≤ k)%nat
    ∧ attempts (retryLoop transport remaining i data lastError).2 = seq i k
    ∧ delays (retryLoop transport remaining i data lastError).2
      = replicate (k - 1) Config.RETRY_DELAY
    ∧ (∀ j, (i ≤ j < i + k - 1)%nat → failed j)
    ∧ ((retryLoop transport remaining i data lastError).1.(success) = false →
       k = remaining).
Proof.
  revert i lastError. induction remaining as [|r IH]; intros i lastError.
  - exists 0%nat. cbn. repeat split; try lia; intros; lia.
  - cbn [retryLoop]. destruct (attemptError (transport data i)) as [e|] eqn:He.
    + destruct (IH (S i) e) as (k & Hk & Hk1 & Hatt & Hdel & Hfail & Hex).
      exists (S k). cbn [fst snd]. repeat split; try lia.
      * destruct r; rewrite ?attempts_cons; cbn [seq]; f_equal; exact Hatt.
      * destruct r as [|r'].
        { assert (k = 0%nat) as -> by lia. rewrite delays_cons. exact Hdel. }
        rewrite !delays_cons, Hdel.
        destruct k as [|k']; [lia|]. cbn. rewrite Nat.sub_0_r. reflexivity.
      * intros j Hj. destruct (decide (j = i)) as [->|Hne].
        { unfold failed. rewrite He. discriminate. }
        apply Hfail. lia.
      * intros Hs. f_equal. apply Hex, Hs.
    + exists 1%nat. cbn [fst snd success].
      repeat split; try lia; try discriminate; intros; lia.
Qed.

Lemma retryLoop_failure remaining i lastError :
  (retryLoop transport remaining i data lastError).1.(success) = false →
  (∀ j, (i ≤ j < i + remaining)%nat → failed j)
  ∧ (remaining ≠ 0%nat →
     attemptError (transport data (i + remaining - 1))
     = Some (retryLoop transport remaining i data lastError).1.(message)).
Proof.
  revert i lastError. induction remaining as [|r IH]; intros i lastError.
  - intros _. split; [intros; lia|congruence].
  - cbn [retryLoop]. destruct (attemptError (transport data i)) as [e|] eqn:He;
      cbn [fst]; [|discriminate].
    intros Hs. destruct (IH (S i) e Hs) as [Hall Hlast]. split.
    + intros j Hj. destruct (decide (j = i)) as [->|Hne].
      * unfold failed. rewrite He. discriminate.
      * apply Hall. lia.
    + intros _. destruct r as [|r'].
      * cbn. replace (i + 1 - 1)%nat with i by lia. exact He.
      * replace (i + S (S r') - 1)%nat with (S i + S r' - 1)%nat by lia.
        apply Hlast. lia.
Qed.

Lemma retryLoop_all_failed remaining i lastError :
  (∀ j, (i ≤ j < i + remaining)%nat → failed j) →
  (retryLoop transport remaining i data lastError).1.(success) = false.
Proof.
  revert i lastError. induction remaining as [|r IH]; intros i lastError Hall;
    [reflexivity|].
  cbn [retryLoop]. destruct (attemptError (transport data i)) as [e|] eqn:He.
  - cbn [fst]. apply IH. intros j Hj. apply Hall. lia.
  - exfalso. apply (Hall i); [lia|exact He].
Qed.

Lemma retryLoop_success remaining i lastError :
  (retryLoop transport remaining i data lastError).1.(success) = true →
  ∃ j, (i ≤ j < i + remaining)%nat
    ∧ transport data j
      = Response false (retryLoop transport remaining i data lastError).1.(message).
Proof.
  revert i lastError. induction remaining as [|r IH]; intros i lastError;
    [discriminate|].
  cbn [retryLoop]. destruct (attemptError (transport data i)) as [e|] eqn:He; cbn [fst].
  - intros Hs. destruct (IH (S i) e Hs) as (j & Hj & Hresp). exists j. split; [lia|exact Hresp].
  - intros _. exists i. split; [lia|]. cbn [message].
    destruct (transport data i) as [[|] text|err]; cbn in He |- *; congruence.
Qed.

End RetryLoop.

(** C1. Whatever the endpoint does, the service makes the attempts
    [0, 1, ..., k-1] for some [k] between one and [MAX_RETRIES], each attempt
    but the last being a failed one that is retried, with a delay of
    [RETRY_DELAY] between two attempts and nowhere else.  It reports a
    failure exactly when all [MAX_RETRIES] attempts fail; it has then made
    all of them, and the message of the result is the error text of the last
    attempt. *)
Theorem submitToGoogleSheets_retries_then_last_error
    {R : Type} (transport : R → nat → AttemptOutcome) (data : R) :
  let res := (submitToGoogleSheets transport data).1 in
  let acts := (submitToGoogleSheets transport data).2 in
  (∃ k, (1 ≤ k ≤ Config.MAX_RETRIES)%nat
     ∧ attempts acts = seq 0 k
     ∧ delays acts = replicate (k - 1) Config.RETRY_DELAY
     ∧ (∀ j, (j < k - 1)%nat → failed transport data j))
  ∧ delaysBetweenAttempts acts = true
  ∧ (success res = false ↔ ∀ i, (i < Config.MAX_RETRIES)%nat → failed transport data i)
  ∧ (success res = false →
     attempts acts = seq 0 Config.MAX_RETRIES
     ∧ delays acts = replicate (Config.MAX_RETRIES - 1) Config.RETRY_DELAY
     ∧ attemptError (transport data (Config.MAX_RETRIES - 1)) = Some (message res)).
Proof.
  intros res acts. subst res acts. unfold submitToGoogleSheets.
  destruct (retryLoop_trace transport data Config.MAX_RETRIES 0 "")
    as (k & Hk & Hk1 & Hatt & Hdel & Hfail & Hex).
  assert (Hpos : Config.MAX_RETRIES ≠ 0%nat) by discriminate.
  split; [|split; [|split]].
  - exists k. repeat split; auto; try lia. intros j Hj. apply Hfail. lia.
  - apply retryLoop_delays_between.
  - split.
    + intros Hs i Hi. apply (retryLoop_failure transport data _ _ _ Hs). lia.
    + intros Hall. apply retryLoop_all_failed. intros j Hj. apply Hall. lia.
  - intros Hs. pose proof (Hex Hs) as ->.
    split; [exact Hatt|split; [exact Hdel|]].
    apply (retryLoop_failure transport data _ 0%nat _ Hs). exact Hpos.
Qed.

Lemma submitToGoogleSheets_witness :
  (submitToGoogleSheets (sampleTransport true) tt).1
  = {| success := false; message := "falha 6" |}
  ∧ attempts (submitToGoogleSheets (sampleTransport true) tt).2 = [0; 1; 2; 3; 4; 5; 6]%nat
  ∧ delays (submitToGoogleSheets (sampleTransport true) tt).2
    = [2000; 2000; 2000; 2000; 2000; 2000]%nat.
Proof.
  destruct (submitToGoogleSheets_retries_then_last_error (sampleTransport true) tt)
    as (_ & _ & _ & Hfail).
  destruct (Hfail eq_refl) as (Hatt & Hdel & Hmsg).
  split; [|split; [exact Hatt|exact Hdel]].
  vm_compute. reflexivity.
Defined.

(** ** The life cycle of the form *)

Section Lifecycle.
Variable resolver : LeadFormValues → LeadFormValues + gmap string string.

Lemma formattedData_formType data fd :
  formattedData data = Normal fd → FormattedData.formType fd = "lead".
Proof.
  unfold formattedData. destruct (dataLembrete data) as [d|].
  - destruct (DateFns.format_ddMMyy d); intros [= <-]; reflexivity.
  - intros [= <-]. reflexivity.
Qed.

Lemma formattedData_telefone data fd :
  formattedData data = Normal fd → FormattedData.telefone fd = telefone data.
Proof.
  unfold formattedData. destruct (dataLembrete data) as [d|].
  - destruct (DateFns.format_ddMMyy d); intros [= <-]; reflexivity.
  - intros [= <-]. reflexivity.
Qed.

(** [onSubmit] is entered in the editing phase only, and either leaves the
    form there or starts a submission. *)
Lemma onSubmit_start_phase data s :
  inPhase Editing s →
  inPhase Editing (onSubmit_start data s) ∨ inPhase Submitting (onSubmit_start data s).
Proof.
  intros (Hi & Hs & Hf & Ht). unfold onSubmit_start.
  destruct (formattedData data) as [fd|e].
  - right. cbn. rewrite Hf. repeat split; eauto.
  - left. cbn. repeat split; assumption.
Qed.

Lemma handleSubmit_phase s :
  inPhase Editing s →
  inPhase Editing (handleSubmit resolver s) ∨ inPhase Submitting (handleSubmit resolver s).
Proof.
  intros H. unfold handleSubmit. destruct (resolver (values s)) as [data|issues].
  - apply onSubmit_start_phase. exact H.
  - left. exact H.
Qed.

Lemma onSubmit_resume_phase outcome s fd :
  inPhase Submitting s → inFlight s = [fd] →
  let s' := onSubmit_resume outcome (setInFlight [] s) in
  match failureText outcome with
  | Some _ => inPhase Editing s'
  | None => inPhase Submitted s' ∧ timers s' = [clock s + RESET_DELAY]%nat
  end.
Proof.
  intros (Hi & Hs & _ & Ht) Hf. unfold onSubmit_resume, failureText.
  destruct outcome as [result|e].
  - destruct (success result); cbn; rewrite ?Ht; repeat split; eauto.
  - cbn. repeat split; assumption.
Qed.

(** Every step keeps the form in one of the three phases. *)
Lemma step_phase s e s' ph :
  inPhase ph s → step resolver s e = Some s' → ∃ ph', inPhase ph' s'.
Proof.
  intros Hph Hstep. destruct e as [f typed|d| |outcome| |ms]; cbn [step] in Hstep.
  - exists ph. destruct f; try discriminate; injection Hstep as <-; destruct ph; exact Hph.
  - exists ph. injection Hstep as <-. destruct ph; exact Hph.
  - destruct (submitDisabled s) eqn:Hdis; [discriminate|]. injection Hstep as <-.
    assert (inPhase Editing s) as Hed.
    { unfold submitDisabled in Hdis. apply orb_false_elim in Hdis as [Hi Hs].
      destruct ph; cbn in Hph; destruct Hph as (? & ? & ? & ?); try congruence.
      repeat split; assumption. }
    destruct (handleSubmit_phase s Hed); eauto.
  - destruct (inFlight s) as [|fd rest] eqn:Hf; [discriminate|]. injection Hstep as <-.
    assert (inPhase Submitting s ∧ rest = []) as [Hsub ->].
    { destruct ph; cbn in Hph.
      - destruct Hph as (_ & _ & ? & _). congruence.
      - split; [exact Hph|]. destruct Hph as (_ & _ & [fd' ?] & _). congruence.
      - destruct Hph as (_ & _ & ? & _). congruence. }
    pose proof (onSubmit_resume_phase outcome s fd Hsub Hf) as H. cbv zeta in H.
    destruct (failureText outcome); [eauto|]. destruct H; eauto.
  - destruct (timers s) as [|due rest] eqn:Ht; [discriminate|].
    destruct (Nat.leb due (clock s)); [|discriminate]. injection Hstep as <-.
    exists Editing. destruct ph; cbn in Hph.
    + destruct Hph as (_ & _ & _ & ?). congruence.
    + destruct Hph as (_ & _ & _ & ?). congruence.
    + destruct Hph as (Hi & _ & Hf & [due' Hd]).
      assert (rest = []) as -> by congruence. cbn. repeat split; assumption.
  - exists ph. injection Hstep as <-. destruct ph; exact Hph.
Qed.

Lemma reachable_phase s : reachable resolver s → ∃ ph, inPhase ph s.
Proof.
  induction 1 as [|s e s' _ [ph IH] Hstep].
  - exists Editing. repeat split.
  - exact (step_phase s e s' ph IH Hstep).
Qed.

Lemma reachable_run s es s' :
  reachable resolver s → run resolver s es = Some s' → reachable resolver s'.
Proof.
  revert s. induction es as [|e es IH]; intros s Hs; cbn [run].
  - intros [= <-]. exact Hs.
  - destruct (step resolver s e) as [s1|] eqn:Hstep; [|discriminate].
    apply IH. exact (reachable_step resolver s e s1 Hs Hstep).
Qed.

Lemma reachable_submitting s :
  reachable resolver s → inFlight s ≠ [] → inPhase Submitting s.
Proof.
  intros Hr Hne. destruct (reachable_phase s Hr) as [[| |] Hph]; [|exact Hph|];
    destruct Hph as (_ & _ & ? & _); congruence.
Qed.

Lemma reachable_submitted s :
  reachable resolver s → submitted s = true → inPhase Submitted s.
Proof.
  intros Hr Hs. destruct (reachable_phase s Hr) as [[| |] Hph]; [| |exact Hph];
    destruct Hph as (_ & ? & _ & _); congruence.
Qed.

(** Every record handed to the service carries the discriminator. *)
Lemma reachable_formType s :
  reachable resolver s →
  Forall (λ fd, FormattedData.formType fd = "lead") (handedOver s).
Proof.
  induction 1 as [|s e s' _ IH Hstep]; [constructor|].
  destruct e as [f typed|d| |outcome| |ms]; cbn [step] in Hstep.
  - destruct f; try discriminate; injection Hstep as <-; exact IH.
  - injection Hstep as <-. exact IH.
  - destruct (submitDisabled s); [discriminate|]. injection Hstep as <-.
    unfold handleSubmit. destruct (resolver (values s)) as [data|issues]; [|exact IH].
    unfold onSubmit_start. destruct (formattedData data) as [fd|err] eqn:Hfd; [|exact IH].
    cbn. constructor; [exact (formattedData_formType data fd Hfd)|exact IH].
  - destruct (inFlight s); [discriminate|]. injection Hstep as <-.
    unfold onSubmit_resume. destruct outcome as [result|err]; [|exact IH].
    destruct (success result); exact IH.
  - destruct (timers s) as [|due rest]; [discriminate|].
    destruct (Nat.leb due (clock s)); [|discriminate]. injection Hstep as <-. exact IH.
  - injection Hstep as <-. exact IH.
Qed.

(** While the success is displayed, the only events that can occur besides
    the timer are edits and the passing of time; they leave the phase, the
    armed timer and the record of calls as they are. *)
Lemma display_window_step s e s' due :
  inPhase Submitted s → timers s = [due] → e ≠ TimerFires →
  step resolver s e = Some s' →
  inPhase Submitted s' ∧ timers s' = [due]
  ∧ handedOver s' = handedOver s ∧ (clock s ≤ clock s')%nat.
Proof.
  intros (Hi & Hs & Hf & Hex) Ht Hne Hstep.
  destruct e as [f typed|d| |outcome| |ms]; cbn [step] in Hstep.
  - destruct f; try discriminate; injection Hstep as <-; cbn; repeat split; eauto; lia.
  - injection Hstep as <-. cbn. repeat split; eauto; lia.
  - unfold submitDisabled in Hstep. rewrite Hs, orb_true_r in Hstep. discriminate.
  - rewrite Hf in Hstep. discriminate.
  - congruence.
  - injection Hstep as <-. cbn. repeat split; eauto; lia.
Qed.

Lemma display_window s es s' due :
  inPhase Submitted s → timers s = [due] → TimerFires ∉ es →
  run resolver s es = Some s' →
  inPhase Submitted s' ∧ timers s' = [due]
  ∧ handedOver s' = handedOver s ∧ (clock s ≤ clock s')%nat.
Proof.
  revert s. induction es as [|e es IH]; intros s Hph Ht Hnot; cbn [run].
  - intros [= <-]. split; [exact Hph|split; [exact Ht|split; [reflexivity|lia]]].
  - destruct (step resolver s e) as [s1|] eqn:Hstep; [|discriminate]. intros Hrun.
    apply not_elem_of_cons in Hnot as [Hne Hnot].
    destruct (display_window_step s e s1 due Hph Ht (not_eq_sym Hne) Hstep)
      as (Hph1 & Ht1 & Hh1 & Hc1).
    destruct (IH s1 Hph1 Ht1 Hnot Hrun) as (Hph2 & Ht2 & Hh2 & Hc2).
    split; [exact Hph2|split; [exact Ht2|split; [congruence|lia]]].
Qed.

(** The timer callback of the display window ends in the state of a form
    just mounted. *)
Lemma timer_fires_fresh s due :
  inPhase Submitted s → timers s = [due] → (due ≤ clock s)%nat →
  ∃ s', step resolver s TimerFires = Some s' ∧ fresh s'.
Proof.
  intros (Hi & Hs & Hf & _) Ht Hdue. cbn [step]. rewrite Ht.
  apply Nat.leb_le in Hdue. rewrite Hdue. eexists. split; [reflexivity|].
  unfold fresh, editable, submitDisabled. cbn. rewrite Hi. repeat split; auto.
Qed.

End Lifecycle.

(** ** The claims about the form *)

Lemma sampleFilled_reachable : reachable sampleResolver sampleFilled.
Proof.
  apply (reachable_run sampleResolver initial sampleFill); [apply reachable_initial|].
  vm_compute. reflexivity.
Qed.

Lemma sampleSubmitting_reachable : reachable sampleResolver sampleSubmitting.
Proof.
  apply (reachable_run sampleResolver sampleFilled [ClickSubmit]);
    [apply sampleFilled_reachable|]. vm_compute. reflexivity.
Qed.

Lemma sampleSubmitted_reachable : reachable sampleResolver sampleSubmitted.
Proof.
  apply (reachable_run sampleResolver sampleSubmitting
           [Elapse 1500; Settle (Normal {| success := true; message := "ok" |})]);
    [apply sampleSubmitting_reachable|]. vm_compute. reflexivity.
Qed.

(** C2. When the awaited call of a form resolves to a success result, the
    form enters the submitted phase, shows the success notification and arms
    one timer, due [RESET_DELAY] after the settlement.  Whatever the user
    does during the display, the form stays in the submitted phase and the
    timer cannot fire before it is due; once it is due it fires, and leaves
    a fresh form: default values, no errors, editing. *)
Theorem success_shows_submitted_then_resets resolver s result :
  reachable resolver s → inFlight s ≠ [] → success result = true →
  ∃ s1, step resolver s (Settle (Normal result)) = Some s1
    ∧ inPhase Submitted s1
    ∧ timers s1 = [clock s + RESET_DELAY]%nat
    ∧ toasts s1 = successToast :: toasts s
    ∧ (∀ es s2, TimerFires ∉ es → run resolver s1 es = Some s2 →
         inPhase Submitted s2
         ∧ ((clock s2 < clock s + RESET_DELAY)%nat → step resolver s2 TimerFires = None)
         ∧ ((clock s + RESET_DELAY ≤ clock s2)%nat →
            ∃ s3, step resolver s2 TimerFires = Some s3 ∧ fresh s3)).
Proof.
  intros Hr Hne Hsucc.
  pose proof (reachable_submitting resolver s Hr Hne) as Hsub.
  destruct Hsub as (Hi & Hs & [fd Hf] & Ht).
  pose proof (onSubmit_resume_phase (Normal result) s fd
                (conj Hi (conj Hs (conj (ex_intro _ fd Hf) Ht))) Hf) as Hres.
  cbv zeta in Hres. unfold failureText in Hres. rewrite Hsucc in Hres.
  destruct Hres as [Hph1 Ht1].
  exists (onSubmit_resume (Normal result) (setInFlight [] s)).
  split; [cbn [step]; rewrite Hf; reflexivity|].
  split; [exact Hph1|]. split; [exact Ht1|].
  split; [unfold onSubmit_resume; rewrite Hsucc; reflexivity|].
  intros es s2 Hnot Hrun.
  destruct (display_window resolver _ es s2 _ Hph1 Ht1 Hnot Hrun) as (Hph2 & Ht2 & _ & _).
  split; [exact Hph2|]. split.
  - intros Hlt. cbn [step]. rewrite Ht2.
    destruct (Nat.leb_spec (clock s + RESET_DELAY) (clock s2)); [lia|reflexivity].
  - intros Hle. exact (timer_fires_fresh resolver s2 _ Hph2 Ht2 Hle).
Qed.

Lemma success_shows_submitted_then_resets_witness :
  ∃ s1, step sampleResolver sampleSubmitting
          (Settle (Normal {| success := true; message := "ok" |})) = Some s1
    ∧ inPhase Submitted s1
    ∧ timers s1 = [clock sampleSubmitting + RESET_DELAY]%nat
    ∧ toasts s1 = successToast :: toasts sampleSubmitting
    ∧ (∀ es s2, TimerFires ∉ es → run sampleResolver s1 es = Some s2 →
         inPhase Submitted s2
         ∧ ((clock s2 < clock sampleSubmitting + RESET_DELAY)%nat →
            step sampleResolver s2 TimerFires = None)
         ∧ ((clock sampleSubmitting + RESET_DELAY ≤ clock s2)%nat →
            ∃ s3, step sampleResolver s2 TimerFires = Some s3 ∧ fresh s3)).
Proof.
  apply (success_shows_submitted_then_resets sampleResolver sampleSubmitting
           {| success := true; message := "ok" |}).
  - exact sampleSubmitting_reachable.
  - discriminate.
  - reflexivity.
Defined.

(** A settlement that is not a success leaves the form editable and shows
    the error text. *)
Lemma settled_failure_returns_to_editing resolver s outcome text :
  reachable resolver s → inFlight s ≠ [] → failureText outcome = Some text →
  ∃ s', step resolver s (Settle outcome) = Some s'
    ∧ editable s'
    ∧ toasts s' = failureToast text :: toasts s.
Proof.
  intros Hr Hne Htext.
  destruct (reachable_submitting resolver s Hr Hne) as (Hi & Hs & [fd Hf] & Ht).
  pose proof (onSubmit_resume_phase outcome s fd
                (conj Hi (conj Hs (conj (ex_intro _ fd Hf) Ht))) Hf) as Hres.
  cbv zeta in Hres. rewrite Htext in Hres. destruct Hres as (Hi' & Hs' & Hf' & Ht').
  exists (onSubmit_resume outcome (setInFlight [] s)).
  split; [cbn [step]; rewrite Hf; reflexivity|]. split.
  - unfold editable, submitDisabled. rewrite Hi', Hs'. repeat split; assumption.
  - unfold onSubmit_resume, failureText in *. destruct outcome as [result|e].
    + destruct (success result); [discriminate|]. injection Htext as <-. reflexivity.
    + injection Htext as <-. reflexivity.
Qed.

(** An exception raised while the record is built, before the service is
    called, is handled the same way. *)
Lemma build_exception_returns_to_editing resolver s data e :
  reachable resolver s → submitDisabled s = false →
  resolver (values s) = inl data → formattedData data = Throw e →
  ∃ s', step resolver s ClickSubmit = Some s'
    ∧ editable s' ∧ toasts s' = catchToast e :: toasts s ∧ values s' = values s
    ∧ handedOver s' = handedOver s.
Proof.
  intros Hr Hdis Hres Hfd. cbn [step]. rewrite Hdis. eexists. split; [reflexivity|].
  unfold handleSubmit, onSubmit_start. rewrite Hres, Hfd.
  destruct (reachable_phase resolver s Hr) as [ph Hph].
  unfold submitDisabled in Hdis. apply orb_false_elim in Hdis as [Hi Hs].
  assert (inFlight s = [] ∧ timers s = []) as [Hf Ht].
  { destruct ph; cbn in Hph; destruct Hph as (? & ? & ? & ?); try congruence. auto. }
  unfold editable, submitDisabled. cbn. repeat split; assumption.
Qed.

Lemma sampleInvalidDate_reachable : reachable acceptAll sampleInvalidDate.
Proof.
  apply (reachable_run acceptAll initial [Input F_nome "Ana"; PickDate (Some InvalidDate)]);
    [apply reachable_initial|]. reflexivity.
Qed.

(** C3. A submission attempt that does not succeed leaves the form editable
    and shows an error notification, wherever in [onSubmit] it fails.  When
    the awaited call rejects with an exception or resolves to a failure
    result, and when an exception is raised inside the [try] before the
    service is called, [isSubmitting] is cleared, the submitted phase is not
    entered, the submit button is enabled, nothing is in flight, and a
    destructive notification carrying the error text is shown. *)
Theorem failure_returns_to_editing resolver s :
  reachable resolver s →
  (∀ outcome text,
     inFlight s ≠ [] → failureText outcome = Some text →
     ∃ s', step resolver s (Settle outcome) = Some s'
       ∧ editable s'
       ∧ toasts s' = failureToast text :: toasts s)
  ∧ (∀ data e,
       submitDisabled s = false → resolver (values s) = inl data →
       formattedData data = Throw e →
       ∃ s', step resolver s ClickSubmit = Some s'
         ∧ editable s'
         ∧ toasts s' = failureToast (description (catchToast e)) :: toasts s).
Proof.
  intros Hr. split.
  - intros outcome text Hne Htext.
    exact (settled_failure_returns_to_editing resolver s outcome text Hr Hne Htext).
  - intros data e Hdis Hres Hfd.
    destruct (build_exception_returns_to_editing resolver s data e Hr Hdis Hres Hfd)
      as (s' & Hstep & Hed & Htoast & _).
    exists s'. split; [exact Hstep|]. split; [exact Hed|exact Htoast].
Qed.

Lemma failure_returns_to_editing_witness :
  (∃ s', step sampleResolver sampleSubmitting
           (Settle (Throw (ErrorObject "Failed to fetch"))) = Some s'
     ∧ editable s'
     ∧ toasts s' = failureToast "Failed to fetch" :: toasts sampleSubmitting)
  ∧ (∃ s', step acceptAll sampleInvalidDate ClickSubmit = Some s'
       ∧ editable s'
       ∧ toasts s' = failureToast "Invalid time value" :: toasts sampleInvalidDate).
Proof.
  split.
  - apply (proj1 (failure_returns_to_editing sampleResolver sampleSubmitting
                    sampleSubmitting_reachable)
             (Throw (ErrorObject "Failed to fetch")) "Failed to fetch").
    + discriminate.
    + reflexivity.
  - apply (proj2 (failure_returns_to_editing acceptAll sampleInvalidDate
                    sampleInvalidDate_reachable)
             (values sampleInvalidDate) (ErrorObject "Invalid time value")).
    + reflexivity.
    + reflexivity.
    + reflexivity.
Defined.

(** *** The page between two renders *)

(** [step] is [pageStep] on a page that was rendered after the last
    handler. *)
Lemma step_is_rendered_pageStep resolver p e :
  domDisabled p = submitDisabled (form p) →
  form <$> pageStep resolver p (Dispatch e) = step resolver (form p) e.
Proof.
  intros Hdom. destruct e as [f typed|d| |outcome| |ms]; cbn [pageStep].
  - destruct (step resolver (form p) (Input f typed)); reflexivity.
  - destruct (step resolver (form p) (PickDate d)); reflexivity.
  - cbn [step]. rewrite Hdom. destruct (submitDisabled (form p)); reflexivity.
  - destruct (step resolver (form p) (Settle outcome)); reflexivity.
  - destruct (step resolver (form p) TimerFires); reflexivity.
  - destruct (step resolver (form p) (Elapse ms)); reflexivity.
Qed.

Lemma pageReachable_run resolver p es p' :
  pageReachable resolver p → pageRun resolver p es = Some p' → pageReachable resolver p'.
Proof.
  revert p. induction es as [|e es IH]; intros p Hp; cbn [pageRun].
  - intros [= <-]. exact Hp.
  - destruct (pageStep resolver p e) as [p1|] eqn:Hstep; [|discriminate].
    apply IH. exact (pageReachable_step resolver p e p1 Hp Hstep).
Qed.

Lemma step_keeps_editing resolver s e s' :
  inPhase Editing s → e ≠ ClickSubmit → step resolver s e = Some s' →
  inPhase Editing s'.
Proof.
  intros (Hi & Hs & Hf & Ht) Hne Hstep.
  destruct e as [f typed|d| |outcome| |ms]; cbn [step] in Hstep.
  - destruct f; try discriminate; injection Hstep as <-; repeat split; assumption.
  - injection Hstep as <-. repeat split; assumption.
  - congruence.
  - rewrite Hf in Hstep. discriminate.
  - rewrite Ht in Hstep. discriminate.
  - injection Hstep as <-. repeat split; assumption.
Qed.

Lemma flags_clear_editing s ph :
  inPhase ph s → submitDisabled s = false → inPhase Editing s.
Proof.
  intros Hph Hdis. unfold submitDisabled in Hdis.
  apply orb_false_elim in Hdis as [Hi Hs].
  destruct ph; cbn in Hph; destruct Hph as (? & ? & ? & ?); try congruence.
  repeat split; assumption.
Qed.

Lemma pageInv_initial : pageInv initialPage.
Proof. split; [exists Editing|intros _]; repeat split. Qed.

Lemma pageInv_dispatch resolver p e p' :
  pageInv p → e ≠ ClickSubmit → pageStep resolver p (Dispatch e) = Some p' →
  pageInv p'.
Proof.
  intros [[ph Hph] Hdom] Hne Hstep.
  assert (∃ s', step resolver (form p) e = Some s' ∧ p' = withForm s' p) as (s' & Hs & ->).
  { destruct e; try congruence; cbn [pageStep] in Hstep;
      match type of Hstep with
      | match ?x with _ => _ end = _ =>
          destruct x as [s'|]; [injection Hstep as <-; eauto|discriminate]
      end. }
  split; [exact (step_phase resolver _ e s' ph Hph Hs)|].
  cbn. intros Hd. exact (step_keeps_editing resolver _ e s' (Hdom Hd) Hne Hs).
Qed.

Lemma pageInv_settle resolver p i outcome p' :
  pageInv p → pageStep resolver p (SettleAt i outcome) = Some p' → pageInv p'.
Proof.
  intros [[ph Hph] Hdom]. cbn [pageStep].
  destruct (inFlight (form p) !! i) as [fd|] eqn:Hi; [|discriminate]. intros [= <-].
  assert (inPhase Submitting (form p) ∧ inFlight (form p) = [fd] ∧ i = 0%nat)
    as (Hsub & Hf & ->).
  { destruct ph; cbn in Hph.
    - destruct Hph as (_ & _ & Hf & _). rewrite Hf in Hi. discriminate.
    - destruct Hph as (H1 & H2 & [fd' Hf] & H4). rewrite Hf in Hi.
      destruct i as [|i]; [|discriminate]. injection Hi as ->.
      split; [repeat split; eauto|]. split; [exact Hf|reflexivity].
    - destruct Hph as (_ & _ & Hf & _). rewrite Hf in Hi. discriminate. }
  rewrite Hf. cbn [delete list_delete].
  pose proof (onSubmit_resume_phase outcome (form p) fd Hsub Hf) as Hres. cbv zeta in Hres.
  split.
  - cbn. destruct (failureText outcome); [eauto|destruct Hres; eauto].
  - cbn. intros Hd. destruct (Hdom Hd) as (_ & _ & Hempty & _). congruence.
Qed.

Lemma pageInv_render p : (∃ ph, inPhase ph (form p)) → pageInv (render p).
Proof.
  intros [ph Hph]. split; [exists ph; exact Hph|].
  cbn. intros Hd. exact (flags_clear_editing _ ph Hph Hd).
Qed.

Lemma pageInv_submit_render resolver p p1 :
  pageInv p → pageStep resolver p (Dispatch ClickSubmit) = Some p1 →
  pageInv (render p1).
Proof.
  intros [_ Hdom]. cbn [pageStep].
  destruct (domDisabled p) eqn:Hd; [discriminate|]. intros [= <-].
  apply pageInv_render. cbn.
  destruct (handleSubmit_phase resolver (form p) (Hdom eq_refl)); eauto.
Qed.

Lemma pageInv_run resolver n :
  ∀ es p p', (length es ≤ n)%nat → pageInv p → rendersAfterSubmit es = true →
    pageRun resolver p es = Some p' → pageInv p'.
Proof.
  induction n as [|n IH]; intros es p p' Hlen Hinv Hok Hrun.
  - destruct es; [|cbn in Hlen; lia]. injection Hrun as <-. exact Hinv.
  - destruct es as [|e es]; [injection Hrun as <-; exact Hinv|].
    cbn [pageRun] in Hrun.
    destruct (pageStep resolver p e) as [p1|] eqn:Hstep; [|discriminate].
    cbn [length] in Hlen.
    destruct e as [e| |].
    + assert (e = ClickSubmit ∨ e ≠ ClickSubmit) as [->|Hne]
        by (destruct e; (left; reflexivity) || (right; discriminate)).
      * cbn [rendersAfterSubmit] in Hok.
        destruct es as [|[| |] es]; try discriminate Hok.
        cbn [pageRun pageStep] in Hrun. cbn [length] in Hlen.
        apply (IH es (render p1) p'); [lia| |exact Hok|exact Hrun].
        exact (pageInv_submit_render resolver p p1 Hinv Hstep).
      * apply (IH es p1 p'); [lia| | |exact Hrun].
        -- exact (pageInv_dispatch resolver p e p1 Hinv Hne Hstep).
        -- destruct e; try congruence; exact Hok.
    + apply (IH es p1 p'); [lia| |exact Hok|exact Hrun].
      exact (pageInv_settle resolver p i outcome p1 Hinv Hstep).
    + apply (IH es p1 p'); [lia| |exact Hok|exact Hrun].
      cbn [pageStep] in Hstep. injection Hstep as <-.
      apply pageInv_render. apply Hinv.
Qed.

Lemma sampleTwoSubmits_reachable : pageReachable sampleResolver sampleTwoSubmits.
Proof.
  apply (pageReachable_run sampleResolver initialPage
           (map Dispatch sampleFill ++ [Dispatch ClickSubmit; Dispatch ClickSubmit]));
    [apply pageReachable_initial|]. vm_compute. reflexivity.
Qed.

(** C8, as the claim states it, fails.  The handler does not test
    [isSubmitting]: two submits dispatched before the component is rendered
    again are both sent, and two calls of the service are awaited while the
    button was never rendered disabled. *)
Lemma two_submits_before_render_both_in_flight :
  pageReachable sampleResolver sampleTwoSubmits
  ∧ length (inFlight (form sampleTwoSubmits)) = 2%nat
  ∧ ¬ (length (inFlight (form sampleTwoSubmits)) ≤ 1)%nat.
Proof.
  split; [exact sampleTwoSubmits_reachable|split; [reflexivity|cbn; lia]].
Qed.

(** C8, amended.  When every submit dispatched is followed by a render
    before the next event, a form never has more than one call of the
    service in flight.  While one is in flight the button is rendered
    disabled and a submit cannot be dispatched; until the call settles, no
    event changes the call awaited or hands another record to the
    service. *)
Theorem one_submission_in_flight_once_rendered resolver es p :
  rendersAfterSubmit es = true → pageRun resolver initialPage es = Some p →
  (length (inFlight (form p)) ≤ 1)%nat
  ∧ (inFlight (form p) ≠ [] →
     domDisabled p = true
     ∧ pageStep resolver p (Dispatch ClickSubmit) = None
     ∧ ∀ e p', pageStep resolver p e = Some p' →
         (∃ outcome, e = Dispatch (Settle outcome))
         ∨ (∃ i outcome, e = SettleAt i outcome)
         ∨ (inFlight (form p') = inFlight (form p)
            ∧ handedOver (form p') = handedOver (form p))).
Proof.
  intros Hok Hrun.
  destruct (pageInv_run resolver (length es) es initialPage p (le_n _)
              pageInv_initial Hok Hrun) as [[ph Hph] Hdom].
  split.
  - destruct ph; cbn in Hph.
    + destruct Hph as (_ & _ & -> & _). cbn. lia.
    + destruct Hph as (_ & _ & [fd ->] & _). cbn. lia.
    + destruct Hph as (_ & _ & -> & _). cbn. lia.
  - intros Hne.
    assert (Hd : domDisabled p = true).
    { destruct (domDisabled p); [reflexivity|].
      destruct (Hdom eq_refl) as (_ & _ & Hf & _). congruence. }
    split; [exact Hd|]. split; [cbn [pageStep]; rewrite Hd; reflexivity|].
    intros e p' Hstep. destruct e as [e|i outcome|].
    + destruct e as [f typed|d| |outcome| |ms]; cbn [pageStep step] in Hstep.
      * right. right. destruct f; try discriminate Hstep; injection Hstep as <-;
          split; reflexivity.
      * right. right. injection Hstep as <-. split; reflexivity.
      * rewrite Hd in Hstep. discriminate.
      * left. eauto.
      * right. right. destruct (timers (form p)) as [|due rest]; [discriminate|].
        destruct (Nat.leb due (clock (form p))); [|discriminate].
        injection Hstep as <-. split; reflexivity.
      * right. right. injection Hstep as <-. split; reflexivity.
    + right. left. eauto.
    + right. right. cbn [pageStep] in Hstep. injection Hstep as <-. split; reflexivity.
Qed.

Lemma one_submission_in_flight_once_rendered_witness :
  (length (inFlight (form sampleRenderedSubmitting)) ≤ 1)%nat
  ∧ domDisabled sampleRenderedSubmitting = true
  ∧ pageStep sampleResolver sampleRenderedSubmitting (Dispatch ClickSubmit) = None.
Proof.
  destruct (one_submission_in_flight_once_rendered sampleResolver sampleSubmitRendered
              sampleRenderedSubmitting) as [Hone Hpending].
  - reflexivity.
  - vm_compute. reflexivity.
  - destruct Hpending as (Hd & Hclick & _); [discriminate|].
    split; [exact Hone|]. split; [exact Hd|exact Hclick].
Defined.



(** C10. The submit button is disabled exactly when [isSubmitting] or
    [submitted] holds.  From the moment the success is displayed until the
    timer callback runs, the button stays disabled, a click on it cannot
    occur, nothing is in flight and no record is handed to the service. *)
Theorem submit_disabled_during_display resolver s :
  reachable resolver s → submitted s = true →
  (∀ t, submitDisabled t = true ↔ isSubmitting t = true ∨ submitted t = true)
  ∧ ∀ es s', TimerFires ∉ es → run resolver s es = Some s' →
      submitted s' = true
      ∧ submitDisabled s' = true
      ∧ step resolver s' ClickSubmit = None
      ∧ inFlight s' = []
      ∧ handedOver s' = handedOver s.
Proof.
  intros Hr Hsub. split.
  - intros t. unfold submitDisabled. apply orb_true_iff.
  - intros es s' Hnot Hrun.
    pose proof (reachable_submitted resolver s Hr Hsub) as Hph.
    destruct Hph as (Hi & Hs & Hf & [due Ht]).
    destruct (display_window resolver s es s' due
                (conj Hi (conj Hs (conj Hf (ex_intro _ due Ht)))) Ht Hnot Hrun)
      as ((Hi' & Hs' & Hf' & _) & _ & Hh & _).
    assert (Hdis : submitDisabled s' = true)
      by (unfold submitDisabled; rewrite Hs'; apply orb_true_r).
    split; [exact Hs'|]. split; [exact Hdis|].
    split; [cbn [step]; rewrite Hdis; reflexivity|]. split; [exact Hf'|exact Hh].
Qed.

Lemma submit_disabled_during_display_witness :
  (∀ t, submitDisabled t = true ↔ isSubmitting t = true ∨ submitted t = true)
  ∧ ∀ es s', TimerFires ∉ es → run sampleResolver sampleSubmitted es = Some s' →
      submitted s' = true
      ∧ submitDisabled s' = true
      ∧ step sampleResolver s' ClickSubmit = None
      ∧ inFlight s' = []
      ∧ handedOver s' = handedOver sampleSubmitted.
Proof.
  apply (submit_disabled_during_display sampleResolver sampleSubmitted).
  - exact sampleSubmitted_reachable.
  - reflexivity.
Defined.

(** C6. Every record a form hands to the service carries the discriminator
    [formType] with the value ["lead"]; and for such a record the service
    returns a result that is either a success, with the text of the response
    of an attempt that did not signal a failure, or a failure, with the error
    text of the last attempt. *)
Theorem handed_over_records_carry_discriminator
    resolver s (transport : FormattedData.t → nat → AttemptOutcome) fd :
  reachable resolver s → fd ∈ handedOver s →
  FormattedData.formType fd = "lead"
  ∧ let res := (submitToGoogleSheets transport fd).1 in
    (success res = true
     ∧ ∃ i, (i < Config.MAX_RETRIES)%nat ∧ transport fd i = Response false (message res))
    ∨ (success res = false
       ∧ attemptError (transport fd (Config.MAX_RETRIES - 1)) = Some (message res)).
Proof.
  intros Hr Hin. split.
  - pose proof (reachable_formType resolver s Hr) as Hall.
    rewrite Forall_forall in Hall. exact (Hall fd Hin).
  - cbv zeta. unfold submitToGoogleSheets.
    destruct (success (retryLoop transport Config.MAX_RETRIES 0 fd "").1) eqn:Hs.
    + left. split; [reflexivity|].
      destruct (retryLoop_success transport fd _ _ _ Hs) as (i & Hi & Hresp).
      exists i. split; [lia|exact Hresp].
    + right. split; [reflexivity|].
      apply (retryLoop_failure transport fd _ 0%nat _ Hs). discriminate.
Qed.

Lemma handed_over_records_carry_discriminator_witness :
  ∃ fd, handedOver sampleSubmitting = [fd]
    ∧ FormattedData.formType fd = "lead"
    ∧ let res := (submitToGoogleSheets (sampleTransport false) fd).1 in
      (success res = true
       ∧ ∃ i, (i < Config.MAX_RETRIES)%nat
            ∧ sampleTransport false fd i = Response false (message res))
      ∨ (success res = false
         ∧ attemptError (sampleTransport false fd (Config.MAX_RETRIES - 1))
           = Some (message res)).
Proof.
  eexists. split; [reflexivity|].
  apply (handed_over_records_carry_discriminator sampleResolver sampleSubmitting
           (sampleTransport false)).
  - exact sampleSubmitting_reachable.
  - apply list_elem_of_here.
Defined.

(** C5. When [onSubmit] receives validated data whose reminder date is set,
    to a valid date, the record it hands to the service has the text
    [dd/MM/yy] of that date as its [dataLembrete]: two digits of the day, of
    the month and of the year, separated by slashes. *)
Theorem reminder_date_sent_as_ddMMyy resolver s data y m dd :
  submitDisabled s = false → resolver (values s) = inl data →
  dataLembrete data = Some (LocalDate y m dd) → wfDate (LocalDate y m dd) →
  ∃ s' fd, step resolver s ClickSubmit = Some s'
    ∧ handedOver s' = fd :: handedOver s
    ∧ inFlight s' = (inFlight s ++ [fd])%list
    ∧ FormattedData.dataLembrete fd = ddMMyy y m dd
    ∧ Formatters.matchesMask DATE_MASK (FormattedData.dataLembrete fd) = true.
Proof.
  intros Hdis Hres Hdate Hwf. cbn [step]. rewrite Hdis.
  unfold handleSubmit, onSubmit_start, formattedData.
  rewrite Hres, Hdate, (format_ddMMyy_spec y m dd Hwf).
  eexists _, _. split; [reflexivity|].
  cbn [handedOver inFlight callService setIsSubmitting setErrors FormattedData.dataLembrete].
  repeat split. exact (ddMMyy_shape y m dd Hwf).
Qed.

Lemma reminder_date_sent_as_ddMMyy_witness :
  ∃ s' fd, step sampleResolver sampleFilled ClickSubmit = Some s'
    ∧ handedOver s' = fd :: handedOver sampleFilled
    ∧ inFlight s' = (inFlight sampleFilled ++ [fd])%list
    ∧ FormattedData.dataLembrete fd = ddMMyy 2025 2 9
    ∧ Formatters.matchesMask DATE_MASK (FormattedData.dataLembrete fd) = true.
Proof.
  apply (reminder_date_sent_as_ddMMyy sampleResolver sampleFilled (values sampleFilled)
           2025 2 9).
  - reflexivity.
  - vm_compute. reflexivity.
  - reflexivity.
  - cbn. lia.
Defined.

(** C7. When eleven raw digits are typed into the phone input, the value the
    form keeps, validates and submits is those digits in the display format
    [(00) 00000-0000]. *)
Theorem phone_digits_normalized resolver s ds :
  length ds = 11%nat → Forall (λ c, Formatters.isDigit c = true) ds →
  ∃ s', step resolver s (Input F_telefone (string_of_list_ascii ds)) = Some s'
    ∧ telefone (values s') = phoneDisplay ds
    ∧ Formatters.matchesMask Formatters.PHONE_MASK (telefone (values s')) = true
    ∧ ∀ fd, formattedData (values s') = Normal fd →
        FormattedData.telefone fd = phoneDisplay ds.
Proof.
  intros Hlen Hds. eexists. split; [reflexivity|].
  cbn [values setValues setValue telefone reported].
  rewrite (formatPhone_display ds Hlen Hds).
  split; [reflexivity|]. split; [exact (phoneDisplay_shape ds Hlen Hds)|].
  intros fd Hfd. apply formattedData_telefone in Hfd. exact Hfd.
Qed.

Lemma phone_digits_normalized_witness :
  ∃ s', step sampleResolver initial (Input F_telefone "11987654321") = Some s'
    ∧ telefone (values s') = "(11) 98765-4321".
Proof.
  destruct (phone_digits_normalized sampleResolver initial
              (list_ascii_of_string "11987654321"))
    as (s' & Hstep & Htel & _).
  - reflexivity.
  - repeat constructor.
  - exists s'. split; [exact Hstep|exact Htel].
Defined.

(** ** Validation *)

Section Validation.
Variable message : Field → Problem → string.

Lemma fieldName_inj f g : fieldName f = fieldName g → f = g.
Proof. destruct f, g; intros H; try reflexivity; discriminate H. Qed.

Lemma allFields_NoDup : NoDup allFields.
Proof.
  unfold allFields. repeat constructor;
    intros Hin; repeat (apply elem_of_cons in Hin as [Hin|Hin]; [discriminate Hin|]);
    apply elem_of_nil in Hin; exact Hin.
Qed.

Lemma allFields_all f : f ∈ allFields.
Proof. unfold allFields. destruct f; repeat constructor. Qed.

Lemma collect_lookup_notin v fs f :
  f ∉ fs → collect message v fs !! fieldName f = None.
Proof.
  induction fs as [|a fs IH]; intros Hnot; [apply lookup_empty|].
  apply not_elem_of_cons in Hnot as [Hne Hnot]. cbn [collect].
  destruct (problem v a); [|exact (IH Hnot)].
  rewrite lookup_insert_ne; [exact (IH Hnot)|].
  intros Heq. apply Hne. symmetry. exact (fieldName_inj _ _ Heq).
Qed.

Lemma collect_lookup_in v fs f :
  NoDup fs → f ∈ fs →
  collect message v fs !! fieldName f = message f <$> problem v f.
Proof.
  induction fs as [|a fs IH]; intros Hnd Hin; [apply elem_of_nil in Hin; contradiction|].
  apply NoDup_cons in Hnd as [Ha Hnd]. cbn [collect].
  apply elem_of_cons in Hin as [->|Hin].
  - destruct (problem v a) as [p|]; [apply lookup_insert_eq|].
    exact (collect_lookup_notin v fs a Ha).
  - assert (fieldName a ≠ fieldName f) as Hne.
    { intros Heq. apply fieldName_inj in Heq as ->. contradiction. }
    destruct (problem v a); [rewrite lookup_insert_ne by exact Hne|]; exact (IH Hnd Hin).
Qed.

Lemma issues_lookup v f :
  collect message v allFields !! fieldName f = message f <$> problem v f.
Proof. apply collect_lookup_in; [exact allFields_NoDup|exact (allFields_all f)]. Qed.

Lemma matchesMask_digit mask s :
  Formatters.matchesMask (String "0" mask) s = true →
  ∃ c s', s = String c s' ∧ Formatters.isDigit c = true
        ∧ Formatters.matchesMask mask s' = true.
Proof.
  destruct s as [|c s']; [discriminate|]. cbn [Formatters.matchesMask].
  change (Ascii.eqb "0" "0") with true. cbv iota.
  intros H. apply andb_true_iff in H as [Hc H]. eauto.
Qed.

Lemma matchesMask_literal m mask s :
  Ascii.eqb m "0" = false →
  Formatters.matchesMask (String m mask) s = true →
  ∃ s', s = String m s' ∧ Formatters.matchesMask mask s' = true.
Proof.
  intros Hm. destruct s as [|c s']; [discriminate|]. cbn [Formatters.matchesMask].
  rewrite Hm. intros H. apply andb_true_iff in H as [Hc H].
  apply Ascii.eqb_eq in Hc as <-. eauto.
Qed.

Lemma matchesMask_end s : Formatters.matchesMask "" s = true → s = "".
Proof. destruct s; [reflexivity|discriminate]. Qed.

(** The mask accepts exactly the phone numbers in the display format. *)
Lemma matchesMask_phoneText s :
  Formatters.matchesMask Formatters.PHONE_MASK s = true ↔ phoneText s.
Proof.
  split.
  - unfold Formatters.PHONE_MASK. intros H.
    apply matchesMask_literal in H as (s1 & -> & H); [|reflexivity].
    apply matchesMask_digit in H as (c1 & s2 & -> & H1 & H).
    apply matchesMask_digit in H as (c2 & s3 & -> & H2 & H).
    apply matchesMask_literal in H as (s4 & -> & H); [|reflexivity].
    apply matchesMask_literal in H as (s5 & -> & H); [|reflexivity].
    apply matchesMask_digit in H as (c3 & s6 & -> & H3 & H).
    apply matchesMask_digit in H as (c4 & s7 & -> & H4 & H).
    apply matchesMask_digit in H as (c5 & s8 & -> & H5 & H).
    apply matchesMask_digit in H as (c6 & s9 & -> & H6 & H).
    apply matchesMask_digit in H as (c7 & s10 & -> & H7 & H).
    apply matchesMask_literal in H as (s11 & -> & H); [|reflexivity].
    apply matchesMask_digit in H as (c8 & s12 & -> & H8 & H).
    apply matchesMask_digit in H as (c9 & s13 & -> & H9 & H).
    apply matchesMask_digit in H as (c10 & s14 & -> & H10 & H).
    apply matchesMask_digit in H as (c11 & s15 & -> & H11 & H).
    apply matchesMask_end in H as ->.
    exists [c1; c2; c3; c4; c5; c6; c7; c8; c9; c10; c11].
    split; [reflexivity|]. split; [repeat constructor; assumption|reflexivity].
  - intros (ds & Hlen & Hds & ->). exact (phoneDisplay_shape ds Hlen Hds).
Qed.

Lemma phoneText_length s : phoneText s → String.length s = 15%nat.
Proof.
  intros (ds & Hlen & _ & ->).
  do 11 (destruct ds as [|? ds]; [discriminate Hlen|]).
  destruct ds; [reflexivity|discriminate Hlen].
Qed.

Lemma statusText_options s : s ∈ STATUS_OPTIONS ↔ statusText s.
Proof.
  unfold STATUS_OPTIONS, statusText. rewrite !elem_of_cons, elem_of_nil. tauto.
Qed.

Lemma emptyText_spec t :
  emptyText t = if String.eqb t "" then Some LeftEmpty else None.
Proof. reflexivity. Qed.

(** What the rules report, told without them: a required field left empty
    is reported as such, a malformed one as such, any other field not at
    all. *)
Lemma problem_left_empty v f :
  required f = true → leftEmpty v f = true → problem v f = Some LeftEmpty.
Proof.
  intros Hreq Hempty.
  destruct f; try discriminate Hreq; cbn in Hempty |- *; unfold emptyText;
    try (rewrite Hempty; reflexivity).
  destruct (dataLembrete v); [discriminate|reflexivity].
Qed.

Lemma problem_malformed v f : malformed v f → problem v f = Some Malformed.
Proof.
  destruct f; cbn [malformed problem]; try contradiction.
  - intros [Hne Hnot]. unfold emptyText.
    apply String.eqb_neq in Hne. rewrite Hne.
    destruct (Formatters.matchesMask Formatters.PHONE_MASK (telefone v)) eqn:Hm;
      [|reflexivity].
    exfalso. apply Hnot, matchesMask_phoneText, Hm.
  - intros [Hne Hnot]. unfold emptyText.
    apply String.eqb_neq in Hne. rewrite Hne.
    case_bool_decide as Hin; [|reflexivity].
    exfalso. apply Hnot, statusText_options, Hin.
  - intros ->. reflexivity.
Qed.

Lemma problem_offending v f p : problem v f = Some p → offending v f.
Proof.
  destruct f; cbn [problem]; unfold emptyText, offending; cbn [required leftEmpty malformed].
  - destruct (String.eqb (nome v) ""); [auto|discriminate].
  - destruct (String.eqb (telefone v) "") eqn:He; [auto|].
    destruct (Formatters.matchesMask Formatters.PHONE_MASK (telefone v)) eqn:Hm;
      [discriminate|].
    intros _. right. split; [apply String.eqb_neq, He|].
    intros Hp. apply matchesMask_phoneText in Hp. congruence.
  - discriminate.
  - destruct (String.eqb (interesse v) ""); [auto|discriminate].
  - destruct (String.eqb (statusLead v) "") eqn:He; [auto|].
    case_bool_decide as Hin; [discriminate|].
    intros _. right. split; [apply String.eqb_neq, He|].
    intros Hs. apply Hin, statusText_options, Hs.
  - destruct (dataLembrete v) as [[|y m dd]|]; cbn; [auto|discriminate|auto].
  - destruct (String.eqb (motivoLembrete v) ""); [auto|discriminate].
  - discriminate.
Qed.

Lemma offending_problem v f : offending v f → ∃ p, problem v f = Some p.
Proof.
  intros [[Hreq Hempty]|Hmal].
  - exists LeftEmpty. exact (problem_left_empty v f Hreq Hempty).
  - exists Malformed. exact (problem_malformed v f Hmal).
Qed.

Lemma not_offending_problem v f : ¬ offending v f → problem v f = None.
Proof.
  intros Hnot. destruct (problem v f) as [p|] eqn:Hp; [|reflexivity].
  exfalso. exact (Hnot (problem_offending v f p Hp)).
Qed.

Lemma leadFormSchema_rejects v f p :
  problem v f = Some p →
  leadFormSchema message v = inr (collect message v allFields).
Proof.
  intros Hp. unfold leadFormSchema. case_bool_decide as Hempty; [|reflexivity].
  pose proof (issues_lookup v f) as Hl. rewrite Hempty, lookup_empty, Hp in Hl.
  discriminate Hl.
Qed.

Lemma leadFormSchema_accepts v :
  (∀ f, problem v f = None) → leadFormSchema message v = inl v.
Proof.
  intros Hnone. unfold leadFormSchema. case_bool_decide as Hempty; [reflexivity|].
  exfalso. apply Hempty. apply map_eq. intros k. rewrite lookup_empty.
  destruct (collect message v allFields !! k) eqn:Hk; [|reflexivity].
  exfalso. revert Hk. unfold allFields. cbn [collect]. rewrite !Hnone.
  rewrite lookup_empty. discriminate.
Qed.

End Validation.

(** C4. When a required field of the form is left empty or a field is
    malformed (a phone number that is not in the display format, a status
    that is none of the four, a reminder date that is not a date), a click on
    the submit button does not call [onSubmit]: nothing is handed to the
    service, and the state changes in its errors only.  The errors then hold,
    under the name of each offending field, the message of that field for
    the empty or for the malformed content, and hold nothing for a field
    that does not offend. *)
Theorem validation_blocks_submission message s f :
  submitDisabled s = false → offending (values s) f →
  ∃ s', step (leadFormSchema message) s ClickSubmit = Some s'
    ∧ s' = setErrors (errors s') s
    ∧ handedOver s' = handedOver s
    ∧ inFlight s' = inFlight s
    ∧ (∀ g, required g = true → leftEmpty (values s) g = true →
         errors s' !! fieldName g = Some (message g LeftEmpty))
    ∧ (∀ g, malformed (values s) g →
         errors s' !! fieldName g = Some (message g Malformed))
    ∧ (∀ g, ¬ offending (values s) g → errors s' !! fieldName g = None).
Proof.
  intros Hdis Hoff. destruct (offending_problem _ _ Hoff) as [p Hp].
  exists (setErrors (collect message (values s) allFields) s).
  split.
  { cbn [step]. rewrite Hdis. unfold handleSubmit.
    rewrite (leadFormSchema_rejects message _ f p Hp). reflexivity. }
  split; [reflexivity|]. split; [reflexivity|]. split; [reflexivity|].
  cbn [errors setErrors]. split; [|split].
  - intros g Hreq Hempty.
    rewrite issues_lookup, (problem_left_empty _ g Hreq Hempty). reflexivity.
  - intros g Hmal. rewrite issues_lookup, (problem_malformed _ g Hmal). reflexivity.
  - intros g Hg. rewrite issues_lookup, (not_offending_problem _ g Hg). reflexivity.
Qed.

Lemma validation_blocks_submission_witness :
  ∃ s', step sampleResolver sampleShortPhone ClickSubmit = Some s'
    ∧ handedOver s' = []
    ∧ errors s' !! "telefone" = Some "telefone: valor invalido"
    ∧ errors s' !! "nome" = None.
Proof.
  assert (Hshort : malformed (values sampleShortPhone) F_telefone).
  { split; [discriminate|]. intros Hp. apply phoneText_length in Hp. discriminate Hp. }
  destruct (validation_blocks_submission sampleMessage sampleShortPhone F_telefone)
    as (s' & Hstep & _ & Hh & _ & _ & Hmal & Hok).
  - reflexivity.
  - right. exact Hshort.
  - exists s'. split; [exact Hstep|]. split; [exact Hh|]. split.
    + exact (Hmal F_telefone Hshort).
    + apply (Hok F_nome). intros [[_ Hempty]|Hm]; [discriminate Hempty|exact Hm].
Defined.


(** * Further properties of the form *)

(** ** Fields *)

(** X1. A text reported by a widget is what [watch] returns for its field
    afterwards, after the formatter of the widget; every other field, and
    everything of the state but the values, is as before. *)
Theorem input_sets_only_its_field resolver s f typed s' :
  step resolver s (Input f typed) = Some s' →
  watch f (values s') = TextValue (reported f typed)
  ∧ (∀ g, g ≠ f → watch g (values s') = watch g (values s))
  ∧ s' = setValues (values s') s.
Proof.
  intros Hstep. cbn [step] in Hstep.
  destruct f; try discriminate Hstep; injection Hstep as <-;
    (split; [reflexivity|split; [|reflexivity]]);
    intros g Hg; destruct g; try reflexivity; contradiction.
Qed.

Lemma input_sets_only_its_field_witness :
  watch F_nome (values sampleRenamed) = TextValue "Ana Lima"
  ∧ (∀ g, g ≠ F_nome → watch g (values sampleRenamed) = watch g (values sampleFilled))
  ∧ sampleRenamed = setValues (values sampleRenamed) sampleFilled.
Proof.
  apply (input_sets_only_its_field sampleResolver sampleFilled F_nome "Ana Lima").
  reflexivity.
Defined.

(** X2. A date picked is what [watch] returns for the reminder date
    afterwards, the unset date included; every other field is as before. *)
Theorem date_sets_only_the_date resolver s d :
  ∃ s', step resolver s (PickDate d) = Some s'
    ∧ watch F_dataLembrete (values s') = DateValue d
    ∧ (∀ g, g ≠ F_dataLembrete → watch g (values s') = watch g (values s))
    ∧ s' = setValues (values s') s.
Proof.
  eexists. split; [reflexivity|]. split; [reflexivity|]. split; [|reflexivity].
  intros g Hg. destruct g; try reflexivity; contradiction.
Qed.

(** X3. The values of the fields change by an edit or by the timer callback
    only; the callback runs only while the success is displayed, and sets the
    default values.  A click on the submit button and a settlement, success
    or not, leave the values as they are. *)
Theorem values_change_by_edit_or_reset resolver s e s' :
  reachable resolver s → step resolver s e = Some s' →
  match e with
  | Input _ _ | PickDate _ => True
  | TimerFires => submitted s = true ∧ values s' = defaultValues
  | ClickSubmit | Settle _ | Elapse _ => values s' = values s
  end.
Proof.
  intros Hr Hstep. destruct e as [f typed|d| |outcome| |ms]; cbn [step] in Hstep; [exact I|exact I|..].
  - destruct (submitDisabled s); [discriminate|]. injection Hstep as <-.
    unfold handleSubmit. destruct (resolver (values s)) as [data|issues]; [|reflexivity].
    unfold onSubmit_start. destruct (formattedData data); reflexivity.
  - destruct (inFlight s); [discriminate|]. injection Hstep as <-.
    unfold onSubmit_resume. destruct outcome as [result|err]; [|reflexivity].
    destruct (success result); reflexivity.
  - destruct (timers s) as [|due rest] eqn:Ht; [discriminate|].
    destruct (Nat.leb due (clock s)); [|discriminate]. injection Hstep as <-.
    split; [|reflexivity].
    destruct (reachable_phase resolver s Hr) as [[| |] Hph]; cbn in Hph.
    + destruct Hph as (_ & _ & _ & ?). congruence.
    + destruct Hph as (_ & _ & _ & ?). congruence.
    + apply Hph.
  - injection Hstep as <-. reflexivity.
Qed.

Lemma values_change_by_edit_or_reset_witness :
  values (onSubmit_resume (Normal {| success := true; message := "ok" |})
            (setInFlight [] sampleSubmitting))
  = values sampleSubmitting.
Proof.
  apply (values_change_by_edit_or_reset sampleResolver sampleSubmitting
           (Settle (Normal {| success := true; message := "ok" |}))).
  - exact sampleSubmitting_reachable.
  - reflexivity.
Defined.

(** ** Notifications and calls of the service *)

(** X4. A settlement shows exactly one notification: the success one for a
    success result, an error one with the error text otherwise.  A click on
    the submit button shows none, or the one of the [catch] clause.  No other
    event shows a notification, and none is ever removed. *)
Theorem one_notification_per_outcome resolver s e s' :
  step resolver s e = Some s' → toastStep e (toasts s) (toasts s').
Proof.
  intros Hstep. destruct e as [f typed|d| |outcome| |ms]; cbn [step] in Hstep;
    unfold toastStep.
  - destruct f; try discriminate Hstep; injection Hstep as <-; reflexivity.
  - injection Hstep as <-. reflexivity.
  - destruct (submitDisabled s); [discriminate|]. injection Hstep as <-.
    unfold handleSubmit. destruct (resolver (values s)) as [data|issues]; [|left; reflexivity].
    unfold onSubmit_start. destruct (formattedData data) as [fd|err].
    + left. reflexivity.
    + right. exists err. reflexivity.
  - destruct (inFlight s); [discriminate|]. injection Hstep as <-.
    unfold onSubmit_resume, failureText. destruct outcome as [result|err]; [|reflexivity].
    destruct (success result); reflexivity.
  - destruct (timers s) as [|due rest]; [discriminate|].
    destruct (Nat.leb due (clock s)); [|discriminate]. injection Hstep as <-. reflexivity.
  - injection Hstep as <-. reflexivity.
Qed.

Lemma one_notification_per_outcome_witness :
  toasts sampleSubmitted = successToast :: toasts sampleSubmitting.
Proof.
  apply (one_notification_per_outcome sampleResolver
           (setClock 1500 sampleSubmitting)
           (Settle (Normal {| success := true; message := "ok" |})) sampleSubmitted).
  reflexivity.
Defined.

(** X5. The service is called by a click on the submit button only, at most
    once per click, and only with a record built from data the resolver
    accepted; the record is then the one awaited.  No event removes or
    changes a record of the calls made. *)
Theorem service_called_with_validated_data resolver s e s' :
  step resolver s e = Some s' →
  handedOver s' = handedOver s
  ∨ (e = ClickSubmit
     ∧ ∃ data fd, resolver (values s) = inl data
         ∧ formattedData data = Normal fd
         ∧ handedOver s' = fd :: handedOver s
         ∧ inFlight s' = (inFlight s ++ [fd])%list).
Proof.
  intros Hstep. destruct e as [f typed|d| |outcome| |ms]; cbn [step] in Hstep.
  - left. destruct f; try discriminate Hstep; injection Hstep as <-; reflexivity.
  - left. injection Hstep as <-. reflexivity.
  - destruct (submitDisabled s); [discriminate|]. injection Hstep as <-.
    unfold handleSubmit. destruct (resolver (values s)) as [data|issues] eqn:Hres;
      [|left; reflexivity].
    unfold onSubmit_start. destruct (formattedData data) as [fd|err] eqn:Hfd;
      [|left; reflexivity].
    right. split; [reflexivity|]. exists data, fd. repeat split; assumption.
  - left. destruct (inFlight s); [discriminate|]. injection Hstep as <-.
    unfold onSubmit_resume. destruct outcome as [result|err]; [|reflexivity].
    destruct (success result); reflexivity.
  - left. destruct (timers s) as [|due rest]; [discriminate|].
    destruct (Nat.leb due (clock s)); [|discriminate]. injection Hstep as <-. reflexivity.
  - left. injection Hstep as <-. reflexivity.
Qed.

Lemma service_called_with_validated_data_witness :
  handedOver sampleSubmitting = handedOver sampleFilled
  ∨ (ClickSubmit = ClickSubmit
     ∧ ∃ data fd, sampleResolver (values sampleFilled) = inl data
         ∧ formattedData data = Normal fd
         ∧ handedOver sampleSubmitting = fd :: handedOver sampleFilled
         ∧ inFlight sampleSubmitting = (inFlight sampleFilled ++ [fd])%list).
Proof.
  apply (service_called_with_validated_data sampleResolver sampleFilled ClickSubmit
           sampleSubmitting).
  vm_compute. reflexivity.
Defined.

(** ** The life cycle as a state machine *)

(** X7. The phases change as follows and in no other way: a click on the
    submit button occurs in the editing phase and leads to the submitting
    phase, or stays when validation or the building of the record fails; a
    settlement occurs in the submitting phase and leads to the submitted
    phase on a success, to the editing phase otherwise; the timer callback
    occurs in the submitted phase and leads to the editing phase; edits and
    the passing of time keep the phase. *)
Theorem phase_transitions resolver s e s' ph :
  inPhase ph s → step resolver s e = Some s' → phaseStep ph e s'.
Proof.
  intros Hph Hstep. destruct e as [f typed|d| |outcome| |ms]; cbn [step] in Hstep;
    unfold phaseStep.
  - destruct f; try discriminate; injection Hstep as <-; destruct ph; exact Hph.
  - injection Hstep as <-. destruct ph; exact Hph.
  - destruct (submitDisabled s) eqn:Hdis; [discriminate|]. injection Hstep as <-.
    unfold submitDisabled in Hdis. apply orb_false_elim in Hdis as [Hi Hs].
    assert (ph = Editing) as ->
      by (destruct ph; cbn in Hph; destruct Hph as (? & ? & _ & _); congruence).
    split; [reflexivity|]. exact (handleSubmit_phase resolver s Hph).
  - destruct (inFlight s) as [|fd rest] eqn:Hf; [discriminate|]. injection Hstep as <-.
    assert (ph = Submitting) as ->
      by (destruct ph; cbn in Hph; destruct Hph as (_ & _ & ? & _); congruence).
    split; [reflexivity|].
    assert (rest = []) as -> by (destruct Hph as (_ & _ & [fd' ?] & _); congruence).
    pose proof (onSubmit_resume_phase outcome s fd Hph Hf) as H. cbv zeta in H.
    destruct (failureText outcome); [exact H|apply H].
  - destruct (timers s) as [|due rest] eqn:Ht; [discriminate|].
    destruct (Nat.leb due (clock s)); [|discriminate]. injection Hstep as <-.
    assert (ph = Submitted) as ->
      by (destruct ph; cbn in Hph; destruct Hph as (_ & _ & _ & ?); congruence).
    split; [reflexivity|]. destruct Hph as (Hi & _ & Hf & [due' Hd]).
    assert (rest = []) as -> by congruence. cbn. repeat split; assumption.
  - injection Hstep as <-. destruct ph; exact Hph.
Qed.

Lemma phase_transitions_witness :
  Submitting = Submitting ∧ inPhase Submitted sampleSubmitted.
Proof.
  apply (phase_transitions sampleResolver (setClock 1500 sampleSubmitting)
           (Settle (Normal {| success := true; message := "ok" |})) sampleSubmitted
           Submitting).
  - cbn. repeat split; eauto.
  - reflexivity.
Defined.

(** X10. In every state a form can be in, an armed reset timer is due at
    most [RESET_DELAY] from now: the success is never displayed with a reset
    further away than the delay it was armed with. *)
Theorem armed_timer_due_within_delay resolver s due :
  reachable resolver s → due ∈ timers s → (due ≤ clock s + RESET_DELAY)%nat.
Proof.
  intros Hr. revert due. induction Hr as [|s e s' Hr IH Hstep]; intros due Hin.
  - apply elem_of_nil in Hin. contradiction.
  - destruct e as [f typed|d| |outcome| |ms]; cbn [step] in Hstep.
    + destruct f; try discriminate Hstep; injection Hstep as <-; exact (IH due Hin).
    + injection Hstep as <-. exact (IH due Hin).
    + destruct (submitDisabled s); [discriminate|]. injection Hstep as <-.
      revert Hin. unfold handleSubmit.
      destruct (resolver (values s)) as [data|issues]; [|exact (IH due)].
      unfold onSubmit_start. destruct (formattedData data); exact (IH due).
    + destruct (inFlight s) as [|fd rest] eqn:Hf; [discriminate|]. injection Hstep as <-.
      destruct (reachable_submitting resolver s Hr) as (_ & _ & _ & Ht); [congruence|].
      revert Hin. unfold onSubmit_resume.
      destruct outcome as [result|err]; [destruct (success result)|]; cbn; rewrite Ht.
      * intros Hin. apply list_elem_of_singleton in Hin as ->. lia.
      * intros Hin. apply elem_of_nil in Hin. contradiction.
      * intros Hin. apply elem_of_nil in Hin. contradiction.
    + destruct (timers s) as [|due0 rest] eqn:Ht; [discriminate|].
      destruct (Nat.leb due0 (clock s)); [|discriminate]. injection Hstep as <-.
      cbn in Hin |- *. apply IH. apply list_elem_of_further. exact Hin.
    + injection Hstep as <-. cbn in Hin |- *. specialize (IH due Hin). lia.
Qed.

Lemma armed_timer_due_within_delay_witness :
  (4500 ≤ clock sampleSubmitted + RESET_DELAY)%nat.
Proof.
  apply (armed_timer_due_within_delay sampleResolver sampleSubmitted 4500).
  - exact sampleSubmitted_reachable.
  - apply list_elem_of_here.
Defined.

(** ** The record built by [onSubmit] *)

(** X11. Building the record fails exactly when the reminder date is an
    invalid date, with the error of the date formatter; otherwise, the date
    being unset or valid, a record is built. *)
Theorem build_fails_exactly_on_invalid_date data :
  match formattedData data with
  | Throw e => dataLembrete data = Some InvalidDate ∧ e = ErrorObject "Invalid time value"
  | Normal _ => dataLembrete data ≠ Some InvalidDate
  end.
Proof.
  unfold formattedData. destruct (dataLembrete data) as [[|y m dd]|]; cbn.
  - split; reflexivity.
  - discriminate.
  - discriminate.
Qed.

(** X12. A record that is built carries the seven text fields of the data
    as they are, and the discriminator. *)
Theorem record_keeps_text_fields data fd :
  formattedData data = Normal fd →
  FormattedData.nome fd = nome data
  ∧ FormattedData.telefone fd = telefone data
  ∧ FormattedData.instagram fd = instagram data
  ∧ FormattedData.interesse fd = interesse data
  ∧ FormattedData.statusLead fd = statusLead data
  ∧ FormattedData.motivoLembrete fd = motivoLembrete data
  ∧ FormattedData.observacoes fd = observacoes data
  ∧ FormattedData.formType fd = "lead".
Proof.
  unfold formattedData. destruct (dataLembrete data) as [d|].
  - destruct (DateFns.format_ddMMyy d); intros [= <-]; cbn; repeat split.
  - intros [= <-]. cbn. repeat split.
Qed.

Lemma record_keeps_text_fields_witness :
  ∃ fd, formattedData (values sampleFilled) = Normal fd
    ∧ FormattedData.nome fd = "Ana Souza"
    ∧ FormattedData.telefone fd = "(11) 98765-4321".
Proof.
  eexists. split; [reflexivity|].
  match goal with
  | |- FormattedData.nome ?fd = _ ∧ _ =>
      destruct (record_keeps_text_fields (values sampleFilled) fd eq_refl)
        as (Hnome & Htel & _)
  end.
  split; [exact Hnome|exact Htel].
Defined.

(** X13. When the reminder date of the validated data is unset, the click on
    the submit button still calls the service, with a record whose
    [dataLembrete] is the empty text. *)
Theorem unset_date_sent_as_empty_text resolver s data :
  submitDisabled s = false → resolver (values s) = inl data →
  dataLembrete data = None →
  ∃ s' fd, step resolver s ClickSubmit = Some s'
    ∧ handedOver s' = fd :: handedOver s
    ∧ inFlight s' = (inFlight s ++ [fd])%list
    ∧ isSubmitting s' = true
    ∧ FormattedData.dataLembrete fd = "".
Proof.
  intros Hdis Hres Hdate. cbn [step]. rewrite Hdis.
  unfold handleSubmit, onSubmit_start, formattedData. rewrite Hres, Hdate.
  eexists _, _. split; [reflexivity|]. cbn. repeat split.
Qed.

Lemma unset_date_sent_as_empty_text_witness :
  ∃ s' fd, step acceptAll initial ClickSubmit = Some s'
    ∧ handedOver s' = fd :: handedOver initial
    ∧ inFlight s' = (inFlight initial ++ [fd])%list
    ∧ isSubmitting s' = true
    ∧ FormattedData.dataLembrete fd = "".
Proof.
  apply (unset_date_sent_as_empty_text acceptAll initial defaultValues); reflexivity.
Defined.

(** X14. When the reminder date of the validated data is an invalid date,
    the click on the submit button does not call the service: the exception
    of the date formatter is caught, its message is shown as an error
    notification, and the form stays editable with its values. *)
Theorem invalid_date_is_caught resolver s data :
  reachable resolver s → submitDisabled s = false →
  resolver (values s) = inl data → dataLembrete data = Some InvalidDate →
  ∃ s', step resolver s ClickSubmit = Some s'
    ∧ editable s'
    ∧ toasts s' = failureToast "Invalid time value" :: toasts s
    ∧ values s' = values s
    ∧ handedOver s' = handedOver s.
Proof.
  intros Hr Hdis Hres Hdate.
  pose proof (build_fails_exactly_on_invalid_date data) as Hbuild.
  destruct (formattedData data) as [fd|e] eqn:Hfd; [contradiction|].
  destruct Hbuild as [_ ->].
  exact (build_exception_returns_to_editing resolver s data _ Hr Hdis Hres Hfd).
Qed.

Lemma invalid_date_is_caught_witness :
  ∃ s', step acceptAll sampleInvalidDate ClickSubmit = Some s'
    ∧ editable s'
    ∧ toasts s' = failureToast "Invalid time value" :: toasts sampleInvalidDate
    ∧ values s' = values sampleInvalidDate
    ∧ handedOver s' = handedOver sampleInvalidDate.
Proof.
  apply (invalid_date_is_caught acceptAll sampleInvalidDate (values sampleInvalidDate)).
  - exact sampleInvalidDate_reachable.
  - reflexivity.
  - reflexivity.
  - reflexivity.
Defined.

(** ** The text of a date *)

Lemma digit_inj j k : (j < 10)%nat → (k < 10)%nat → digit j = digit k → j = k.
Proof.
  intros Hj Hk Heq. apply (f_equal nat_of_ascii) in Heq. unfold digit in Heq.
  rewrite !nat_ascii_embedding in Heq by lia. lia.
Qed.

Lemma twoDigits_inj a b :
  (a < 100)%nat → (b < 100)%nat → twoDigits a = twoDigits b → a = b.
Proof.
  intros Ha Hb Heq. unfold twoDigits in Heq.
  assert (a / 10 < 10 ∧ b / 10 < 10)%nat as [Hqa Hqb]
    by (split; apply Nat.Div0.div_lt_upper_bound; lia).
  assert (a mod 10 < 10 ∧ b mod 10 < 10)%nat as [Hra Hrb]
    by (split; apply Nat.mod_upper_bound; lia).
  rewrite (Nat.div_mod_eq a 10), (Nat.div_mod_eq b 10).
  remember (a / 10)%nat as qa. remember (b / 10)%nat as qb.
  remember (a mod 10)%nat as ra. remember (b mod 10)%nat as rb.
  injection Heq as Hq Hr.
  apply digit_inj in Hq; [|assumption|assumption].
  apply digit_inj in Hr; [|assumption|assumption]. congruence.
Qed.

(** X15. The text of a date keeps the two last digits of the year only: two
    dates a century apart, in years counted from 1, are sent as the same
    text. *)
Theorem dates_a_century_apart_same_text y m dd :
  (0 < y)%Z →
  DateFns.format_ddMMyy (LocalDate (y + 100) m dd) = DateFns.format_ddMMyy (LocalDate y m dd).
Proof.
  intros Hy. unfold DateFns.format_ddMMyy, DateFns.token_yy.
  destruct (Z.ltb_spec 0 y); [|lia]. destruct (Z.ltb_spec 0 (y + 100)); [|lia].
  replace ((y + 100) mod 100)%Z with (y mod 100)%Z; [reflexivity|].
  rewrite <- (Z.mul_1_l 100) at 2. rewrite Z.mod_add by lia. reflexivity.
Qed.

Lemma dates_a_century_apart_same_text_witness :
  DateFns.format_ddMMyy (LocalDate (1925 + 100) 2 9)
  = DateFns.format_ddMMyy (LocalDate 1925 2 9).
Proof. apply (dates_a_century_apart_same_text 1925 2 9). lia. Defined.

(** X16. Apart from the century, the text of a valid date tells the date:
    two valid dates with the same text have the same day of the month, the
    same month and the same two last digits of the year. *)
Theorem date_text_tells_day_month_short_year y1 m1 d1 y2 m2 d2 :
  wfDate (LocalDate y1 m1 d1) → wfDate (LocalDate y2 m2 d2) →
  DateFns.format_ddMMyy (LocalDate y1 m1 d1) = DateFns.format_ddMMyy (LocalDate y2 m2 d2) →
  d1 = d2 ∧ m1 = m2 ∧ shortYear y1 = shortYear y2.
Proof.
  intros Hwf1 Hwf2 Heq.
  rewrite (format_ddMMyy_spec _ _ _ Hwf1), (format_ddMMyy_spec _ _ _ Hwf2) in Heq.
  assert (Heq' : ddMMyy y1 m1 d1 = ddMMyy y2 m2 d2) by congruence.
  clear Heq. rename Heq' into Heq.
  destruct Hwf1 as (Hm1 & Hd1 & Hd1'), Hwf2 as (Hm2 & Hd2 & Hd2').
  unfold ddMMyy in Heq.
  assert (Hsplit : ∀ a b c, (twoDigits a +:+ "/" +:+ twoDigits b +:+ "/" +:+ twoDigits c)
                            = String (digit (a / 10)) (String (digit (a mod 10)) (String "/"
                                (String (digit (b / 10)) (String (digit (b mod 10)) (String "/"
                                   (twoDigits c))))))) by reflexivity.
  rewrite !Hsplit in Heq. clear Hsplit.
  assert (twoDigits d1 = twoDigits d2 ∧ twoDigits (m1 + 1) = twoDigits (m2 + 1)
          ∧ twoDigits (shortYear y1) = twoDigits (shortYear y2)) as (Hd & Hm & Hc).
  { remember (twoDigits (shortYear y1)) as t1. remember (twoDigits (shortYear y2)) as t2.
    remember (digit (d1 / 10)) as a1. remember (digit (d1 mod 10)) as a2.
    remember (digit (d2 / 10)) as a3. remember (digit (d2 mod 10)) as a4.
    remember (digit ((m1 + 1) / 10)) as b1. remember (digit ((m1 + 1) mod 10)) as b2.
    remember (digit ((m2 + 1) / 10)) as b3. remember (digit ((m2 + 1) mod 10)) as b4.
    injection Heq as E1 E2 E3 E4 E5. subst.
    unfold twoDigits at 1 2 3 4. repeat split; congruence. }
  apply twoDigits_inj in Hd; [|lia|lia]. apply twoDigits_inj in Hm; [|lia|lia].
  apply twoDigits_inj in Hc; [|apply shortYear_lt|apply shortYear_lt].
  repeat split; [exact Hd|lia|exact Hc].
Qed.

Lemma date_text_tells_day_month_short_year_witness :
  9%nat = 9%nat ∧ 2%nat = 2%nat ∧ shortYear 1925 = shortYear 2025.
Proof.
  apply (date_text_tells_day_month_short_year 1925 2 9 2025 2 9).
  - cbn. lia.
  - cbn. lia.
  - reflexivity.
Defined.

(** ** The page whatever the renders *)

(** What [onSubmit] keeps between the flags and what is pending, at each of
    its steps and whatever else is pending: [isSubmitting] is set only with
    a call awaited, [submitted] only with a timer armed. *)
Lemma handleSubmit_flags resolver s :
  (isSubmitting s = true → inFlight s ≠ []) → (submitted s = true → timers s ≠ []) →
  (isSubmitting (handleSubmit resolver s) = true → inFlight (handleSubmit resolver s) ≠ [])
  ∧ (submitted (handleSubmit resolver s) = true → timers (handleSubmit resolver s) ≠ []).
Proof.
  intros Hi Hs. unfold handleSubmit.
  destruct (resolver (values s)) as [data|issues]; [|split; assumption].
  unfold onSubmit_start. destruct (formattedData data) as [fd|err]; cbn.
  - split; [|exact Hs]. intros _ Heq. apply app_eq_nil in Heq as [_ Heq]. discriminate.
  - split; [discriminate|exact Hs].
Qed.

Lemma onSubmit_resume_flags outcome s rest :
  (submitted s = true → timers s ≠ []) →
  let s' := onSubmit_resume outcome (setInFlight rest s) in
  (isSubmitting s' = true → inFlight s' ≠ []) ∧ (submitted s' = true → timers s' ≠ []).
Proof.
  intros Hs. unfold onSubmit_resume.
  destruct outcome as [result|err]; [destruct (success result)|]; cbn.
  - split; [discriminate|]. intros _ Heq. apply app_eq_nil in Heq as [_ Heq]. discriminate.
  - split; [discriminate|exact Hs].
  - split; [discriminate|exact Hs].
Qed.

Lemma step_flags resolver s e s' :
  (isSubmitting s = true → inFlight s ≠ []) → (submitted s = true → timers s ≠ []) →
  step resolver s e = Some s' →
  (isSubmitting s' = true → inFlight s' ≠ []) ∧ (submitted s' = true → timers s' ≠ []).
Proof.
  intros Hi Hs Hstep. destruct e as [f typed|d| |outcome| |ms]; cbn [step] in Hstep.
  - destruct f; try discriminate Hstep; injection Hstep as <-; split; assumption.
  - injection Hstep as <-. split; assumption.
  - destruct (submitDisabled s); [discriminate|]. injection Hstep as <-.
    exact (handleSubmit_flags resolver s Hi Hs).
  - destruct (inFlight s) as [|fd rest]; [discriminate|]. injection Hstep as <-.
    exact (onSubmit_resume_flags outcome s rest Hs).
  - destruct (timers s) as [|due rest]; [discriminate|].
    destruct (Nat.leb due (clock s)); [|discriminate]. injection Hstep as <-.
    cbn. split; [exact Hi|discriminate].
  - injection Hstep as <-. split; assumption.
Qed.

Lemma pageReachable_flags resolver p :
  pageReachable resolver p →
  (isSubmitting (form p) = true → inFlight (form p) ≠ [])
  ∧ (submitted (form p) = true → timers (form p) ≠ []).
Proof.
  induction 1 as [|p e p' _ [Hi Hs] Hstep]; [split; discriminate|].
  destruct e as [e|i outcome|]; cbn [pageStep] in Hstep.
  - destruct e as [f typed|d| |outcome| |ms];
      try (match type of Hstep with
           | match step ?r ?s ?e with _ => _ end = _ =>
               destruct (step r s e) as [s'|] eqn:Hs'; [injection Hstep as <-|discriminate]
           end;
           exact (step_flags resolver (form p) _ s' Hi Hs Hs')).
    destruct (domDisabled p); [discriminate|]. injection Hstep as <-.
    exact (handleSubmit_flags resolver (form p) Hi Hs).
  - destruct (inFlight (form p) !! i); [|discriminate]. injection Hstep as <-.
    exact (onSubmit_resume_flags outcome (form p) _ Hs).
  - injection Hstep as <-. split; assumption.
Qed.

(** X8. On every page a form can show, whatever the renders and however
    many submits went through, [isSubmitting] holds only while a call of the
    service is awaited and [submitted] only while a reset timer is armed:
    the form never shows itself sending with nothing to wait for, nor the
    success with no reset to come. *)
Theorem flags_need_call_and_timer resolver p :
  pageReachable resolver p →
  (isSubmitting (form p) = true → inFlight (form p) ≠ [])
  ∧ (submitted (form p) = true → timers (form p) ≠ []).
Proof. exact (pageReachable_flags resolver p). Qed.

Lemma flags_need_call_and_timer_witness :
  (isSubmitting (form sampleTwoSubmits) = true → inFlight (form sampleTwoSubmits) ≠ [])
  ∧ (submitted (form sampleTwoSubmits) = true → timers (form sampleTwoSubmits) ≠ []).
Proof.
  apply (flags_need_call_and_timer sampleResolver sampleTwoSubmits).
  exact sampleTwoSubmits_reachable.
Defined.

(** X9. On every page a form can show, a render that shows the sending text
    on the submit button finds a call of the service awaited, and one that
    shows the success text finds a reset timer armed; the plain label is
    shown exactly when the button is rendered enabled. *)
Theorem button_text_needs_call_or_timer resolver p :
  pageReachable resolver p →
  (buttonText (form p) = "Enviando..." → inFlight (form p) ≠ [])
  ∧ (buttonText (form p) = "Enviado com Sucesso!" → timers (form p) ≠ [])
  ∧ (buttonText (form p) = "Enviar Dados do Lead" ↔ domDisabled (render p) = false).
Proof.
  intros Hr. destruct (pageReachable_flags resolver p Hr) as [Hi Hs].
  unfold buttonText, render, submitDisabled. cbn [domDisabled form].
  destruct (isSubmitting (form p)), (submitted (form p)); cbn;
    repeat split; try discriminate; try (intros; reflexivity); auto.
Qed.

Lemma button_text_needs_call_or_timer_witness :
  (buttonText (form sampleTwoSubmits) = "Enviando..." → inFlight (form sampleTwoSubmits) ≠ [])
  ∧ (buttonText (form sampleTwoSubmits) = "Enviado com Sucesso!"
     → timers (form sampleTwoSubmits) ≠ [])
  ∧ (buttonText (form sampleTwoSubmits) = "Enviar Dados do Lead"
     ↔ domDisabled (render sampleTwoSubmits) = false).
Proof.
  apply (button_text_needs_call_or_timer sampleResolver sampleTwoSubmits).
  exact sampleTwoSubmits_reachable.
Defined.


